(** * simple_shell: a shallow embedding of [shell.c]

    The program is a read-parse-execute loop.  The embedding follows the
    C source function by function:

    - the line buffer [char line_buffer[MAX_LINE_LENGTH]] is a [list ascii],
      a [char *] into it is an offset ([nat]), a nullable pointer is an
      [option nat];
    - the argument vector [char *args[MAX_ARGS]] is a [list (option nat)]
      updated by index;
    - the C library ([strtok], [strspn], [strcspn], [strcmp], [fgets],
      [feof]) is modelled after ISO C, [strtok] with its hidden save
      pointer made explicit;
    - the operating system ([fork], [execvp], [waitpid]) is an oracle that
      answers each call from the history of the run; a [waitpid] may
      never return, and the children of the process, which read and seek
      on the same open file as its standard input, may change what the
      process reads next;
    - everything the process does to the outside is recorded in a trace of
      events, in the order in which it happens. *)

From Stdlib Require Import ZArith Lia Ascii.
From stdpp Require Import base tactics option list strings.

(** ** Results of C computations *)

(** A computation of the model either produces a value, or steps outside
    an object (undefined behaviour in C), or runs out of the fuel given to
    a loop. *)
Inductive res (A : Type) : Type :=
| Ok (a : A)
| Undefined
| OutOfFuel.
Arguments Ok {A} a.
Arguments Undefined {A}.
Arguments OutOfFuel {A}.

#[global] Instance res_ret : MRet res := fun A a => Ok a.
#[global] Instance res_bind : MBind res := fun A B f r =>
  match r with
  | Ok a => f a
  | Undefined => Undefined
  | OutOfFuel => OutOfFuel
  end.

(** ** Constants of the program *)

Definition MAX_ARGS : nat := 10.
Definition MAX_LINE_LENGTH : nat := 256.
Definition EXIT_FAILURE : Z := 1%Z.
Definition INT_MAX : Z := 2147483647%Z.

Definition NUL : ascii := Ascii.zero.
Definition SPACE : ascii := " "%char.
Definition NEWLINE : ascii := "010"%char.

(** ** Memory accesses *)

(** [*(buf + p)]: a read outside the array is undefined. *)
Definition load (buf : list ascii) (p : nat) : res ascii :=
  match buf !! p with
  | Some c => Ok c
  | None => Undefined
  end.

(** [a[i] = v] on an array of any element type. *)
Definition store {A} (a : list A) (i : nat) (v : A) : res (list A) :=
  if bool_decide (i < length a) then Ok (<[i := v]> a) else Undefined.

(** ** The C library: strings *)

Module Libc.

(** The characters of the C string that starts at the head of [mem]:
    everything before the first NUL. *)
Fixpoint cstring (mem : list ascii) : res (list ascii) :=
  match mem with
  | [] => Undefined
  | c :: mem' =>
      if bool_decide (c = NUL) then Ok []
      else s ← cstring mem'; Ok (c :: s)
  end.

(** [strspn(s, accept)]: length of the initial segment of [s] made of
    characters of [accept]. *)
Fixpoint strspn (mem : list ascii) (accept : list ascii) : res nat :=
  match mem with
  | [] => Undefined
  | c :: mem' =>
      if bool_decide (c = NUL) then Ok 0
      else if bool_decide (c ∈ accept) then n ← strspn mem' accept; Ok (S n)
      else Ok 0
  end.

(** [strcspn(s, reject)]: length of the initial segment of [s] made of
    characters not in [reject]. *)
Fixpoint strcspn (mem : list ascii) (reject : list ascii) : res nat :=
  match mem with
  | [] => Undefined
  | c :: mem' =>
      if bool_decide (c = NUL) then Ok 0
      else if bool_decide (c ∈ reject) then Ok 0
      else n ← strcspn mem' reject; Ok (S n)
  end.

(** [strcmp(a, b)] on the characters of two C strings: the difference of
    the first pair of bytes that differ, read as [unsigned char], the
    terminator counting as byte 0. *)
Fixpoint strcmp (a b : list ascii) : Z :=
  match a, b with
  | [], [] => 0
  | [], d :: _ => - Z.of_nat (nat_of_ascii d)
  | c :: _, [] => Z.of_nat (nat_of_ascii c)
  | c :: a', d :: b' =>
      if bool_decide (c = d) then strcmp a' b'
      else Z.of_nat (nat_of_ascii c) - Z.of_nat (nat_of_ascii d)
  end.

(** The memory [strtok] works on: the line buffer, and the pointer
    [strtok] keeps between calls. *)
Record mem := Mem { m_buf : list ascii; m_save : option nat }.

(** [strtok(s, delim)], ISO C 7.24.5.8: with [s = NULL] the scan resumes
    at the saved pointer; leading delimiters are skipped; if nothing is
    left the result is NULL; otherwise the token runs up to the next
    delimiter, which is overwritten by NUL, and the scan will resume
    behind it. *)
Definition strtok (s : option nat) (delim : list ascii) (m : mem)
  : res (option nat * mem) :=
  s0 ← match s with
       | Some p => Ok p
       | None => match m_save m with Some p => Ok p | None => Undefined end
       end;
  let buf := m_buf m in
  c0 ← load buf s0;
  if bool_decide (c0 = NUL) then Ok (None, Mem buf (Some s0)) else
  n ← strspn (drop s0 buf) delim;
  let s1 := s0 + n in
  c1 ← load buf s1;
  if bool_decide (c1 = NUL) then Ok (None, Mem buf (Some s1)) else
  k ← strcspn (drop s1 buf) delim;
  let e := s1 + k in
  ce ← load buf e;
  if bool_decide (ce = NUL) then Ok (Some s1, Mem buf (Some e)) else
  buf' ← store buf e NUL;
  Ok (Some s1, Mem buf' (Some (e + 1))).

End Libc.
Import Libc.

(** The C string a pointer into the line buffer points to. *)
Definition cstring_at (buf : list ascii) (p : nat) : res (list ascii) :=
  cstring (drop p buf).

(** ** parse_command_line *)

(** The [while] loop of [parse_command_line]; [fuel] bounds the number of
    iterations of the model. *)
Fixpoint parse_loop (fuel : nat) (token : option nat) (arg_count : nat)
    (args : list (option nat)) (m : mem)
  : res (nat * list (option nat) * mem) :=
  match token with
  | Some t =>
      if bool_decide (arg_count < MAX_ARGS - 1) then
        match fuel with
        | 0 => OutOfFuel
        | S fuel' =>
            args' ← store args arg_count (Some t);
            '(token', m') ← strtok None [SPACE] m;
            parse_loop fuel' token' (S arg_count) args' m'
        end
      else Ok (arg_count, args, m)
  | None => Ok (arg_count, args, m)
  end.

(** [int parse_command_line(char *line_buffer, char *args[])]: the result
    is the returned count, the contents of [args] and the memory. *)
Definition parse_command_line (line_buffer : nat) (args : list (option nat))
    (m : mem) : res (nat * list (option nat) * mem) :=
  '(token, m1) ← strtok (Some line_buffer) [SPACE] m;
  '(arg_count, args1, m2) ← parse_loop MAX_ARGS token 0 args m1;
  args2 ← store args1 arg_count None;
  Ok (arg_count, args2, m2).

(** The strings of a NULL-terminated vector of pointers, as [execvp]
    reads them. *)
Fixpoint argv_strings (buf : list ascii) (args : list (option nat))
  : res (list (list ascii)) :=
  match args with
  | [] => Undefined
  | None :: _ => Ok []
  | Some p :: args' =>
      s ← cstring_at buf p; ss ← argv_strings buf args'; Ok (s :: ss)
  end.

(** ** Words of a line, as the specification speaks of them *)

(** Cutting a text at every occurrence of a delimiter. *)
Fixpoint split_on (d : ascii) (s : list ascii) : list (list ascii) :=
  match s with
  | [] => [[]]
  | c :: s' =>
      if bool_decide (c = d) then [] :: split_on d s'
      else match split_on d s' with
           | w :: ws => (c :: w) :: ws
           | [] => [[c]]
           end
  end.

(** The space-separated words of a line: the non-empty pieces between
    spaces. *)
Definition words (s : list ascii) : list (list ascii) :=
  filter (fun w => w ≠ []) (split_on SPACE s).

Definition chars (s : string) : list ascii := String.list_ascii_of_string s.

(** ** The standard input stream *)

(** How the stream ends once its bytes are used up: at end-of-file, or in
    a read error. *)
Inductive stream_end := EndOfFile | ReadError.

Record stdin_state := Stdin {
  in_pending : list ascii;  (* the bytes the stream still delivers *)
  in_end : stream_end;      (* what follows them *)
  in_eof : bool;            (* the end-of-file indicator, read by [feof] *)
  in_err : bool             (* the error indicator *)
}.

(** How a read of at most [n] characters of a line stops. *)
Inductive scan_stop := StopFull | StopNewline | StopEnd.

(** The characters [fgets] takes from the stream: at most [n], up to and
    including the first newline; with what is left of the stream. *)
Fixpoint fgets_scan (n : nat) (pending : list ascii)
  : list ascii * list ascii * scan_stop :=
  match n with
  | 0 => ([], pending, StopFull)
  | S n' =>
      match pending with
      | [] => ([], [], StopEnd)
      | c :: pending' =>
          if bool_decide (c = NEWLINE) then ([c], pending', StopNewline)
          else let '(got, rest, stop) := fgets_scan n' pending' in
               (c :: got, rest, stop)
      end
  end.

(** Writing a run of bytes at [buf + p]. *)
Definition write_bytes (buf : list ascii) (p : nat) (bs : list ascii)
  : res (list ascii) :=
  if bool_decide (p + length bs ≤ length buf)
  then Ok (take p buf ++ bs ++ drop (p + length bs) buf)
  else Undefined.

(** A [size_t] handed to a parameter of type [int], as line 24 hands
    [buffer_size] to [fgets]: the value is reduced modulo 2^32 into the
    range of [int] (what GCC and Clang define for this conversion).  Up
    to [INT_MAX] it is the value itself. *)
Definition int_of_size_t (n : nat) : Z :=
  let m := (Z.of_nat n mod 4294967296)%Z in
  if (m <? 2147483648)%Z then m else (m - 4294967296)%Z.

(** [fgets(s, n, stdin)], ISO C 7.21.7.2: at most [n - 1] characters are
    read, none after a newline or after end-of-file, and a NUL is written
    behind them.  With [n <= 0] nothing is read or stored and the result
    is NULL.  At end-of-file with no character read the array is left as
    it is and the result is NULL; on a read error the result is NULL and
    the array holds the characters read so far, with no NUL behind
    them.  The end-of-file indicator is set when the end of the file is
    met; in a run of [main] the stream holds no byte from then on (see
    [shared_input]), so every later read meets the end again. *)
Definition fgets (buf : list ascii) (s : nat) (n : Z) (st : stdin_state)
  : res (option nat * list ascii * stdin_state) :=
  if bool_decide (n ≤ 0)%Z then Ok (None, buf, st) else
  let '(got, rest, stop) := fgets_scan (Z.to_nat (n - 1)) (in_pending st) in
  match stop with
  | StopFull | StopNewline =>
      buf' ← write_bytes buf s (got ++ [NUL]);
      Ok (Some s, buf', Stdin rest (in_end st) (in_eof st) (in_err st))
  | StopEnd =>
      match in_end st with
      | EndOfFile =>
          let st' := Stdin rest EndOfFile true (in_err st) in
          match got with
          | [] => Ok (None, buf, st')
          | _ => buf' ← write_bytes buf s (got ++ [NUL]); Ok (Some s, buf', st')
          end
      | ReadError =>
          buf' ← write_bytes buf s got;
          Ok (None, buf', Stdin rest ReadError (in_eof st) true)
      end
  end.

Definition feof (st : stdin_state) : bool := in_eof st.

(** ** The process and its environment *)

(** What the process does to the outside, in order. *)
Inductive event :=
| EPrintf (s : string)        (* text written to standard output *)
| EFflush                     (* [fflush(stdout)] *)
| EPerror (s : string)        (* [perror(s)]: a diagnostic on standard error *)
| EFork (ret : Z)             (* [fork()] and what it returned here *)
| EExecvp (file : list ascii) (argv : list (list ascii)) (loaded : bool)
| EWaitpid (pid : Z) (options : Z) (ret : Z)
                              (* [waitpid(pid, &status, options)] returned *)
| EWaitpidBlocks (pid : Z) (options : Z).
                              (* [waitpid] was called and does not return *)

(** The operating system: each call is answered from the history of the
    run.  [fork] returns -1, 0 (in the child) or the child's pid;
    [execvp] either replaces the program image or fails; [waitpid]
    returns the pid of the child it collected, or -1, or it never
    returns, when the child never ends.  A child runs on the same open
    file as the standard input of the process: it may read from it, and
    with [exit] it may move the file's offset.  [os_input_after] is what
    the stream has in store for the process once its child has run. *)
Class OS := {
  os_fork : list event → Z;
  os_execvp : list event → list ascii → list (list ascii) → bool;
  os_waitpid : list event → Z → Z → option Z;
  os_input_after : list event → stdin_state → stdin_state
}.

(** The state of the process: the line buffer with [strtok]'s pointer, the
    input stream, and the events so far. *)
Record world := World {
  w_mem : mem;
  w_in : stdin_state;
  w_trace : list event
}.

Definition emit (e : event) (w : world) : world :=
  World (w_mem w) (w_in w) (w_trace w ++ [e]).

Definition printf (s : string) (w : world) : world := emit (EPrintf s) w.
Definition perror (s : string) (w : world) : world := emit (EPerror s) w.

(** How a call ends: it returns, or the process ends in [exit(code)], or
    the program image is replaced by [execvp]; or it does not end,
    blocked in a [waitpid] that never returns. *)
Inductive outcome (A : Type) : Type :=
| Return (a : A)
| Exit (code : Z)
| Exec
| Blocked.
Arguments Return {A} a.
Arguments Exit {A} code.
Arguments Exec {A}.
Arguments Blocked {A}.

Definition nl : string := String NEWLINE EmptyString.

(** ** read_command_line *)

(** [int read_command_line(char *line_buffer, size_t buffer_size)]. *)
Definition read_command_line (line_buffer : nat) (buffer_size : nat)
    (w : world) : res (Z * world) :=
  let w := printf "simple_shell> " w in
  let w := emit EFflush w in
  '(r, buf, st) ← fgets (m_buf (w_mem w)) line_buffer
                     (int_of_size_t buffer_size) (w_in w);
  let w := World (Mem buf (m_save (w_mem w))) st (w_trace w) in
  match r with
  | None =>
      if feof (w_in w)
      then Ok ((-1)%Z, printf (nl +:+ "Exiting shell..." +:+ nl) w)
      else Ok ((-1)%Z, perror "fgets error" w)
  | Some _ =>
      n ← strcspn (drop line_buffer buf) [NEWLINE];
      buf' ← store buf (line_buffer + n) NUL;
      Ok (0%Z, World (Mem buf' (m_save (w_mem w))) (w_in w) (w_trace w))
  end.

(** ** display_help *)

Definition help_text : list string :=
  [ "--- Simple Shell Help ---" +:+ nl;
    "Available built-in commands:" +:+ nl;
    "  help   : Display this help message." +:+ nl;
    "  exit   : Terminate the shell." +:+ nl;
    nl;
    "Other commands are executed via the system's PATH." +:+ nl;
    "Examples:" +:+ nl;
    "  ls -l" +:+ nl;
    "  echo Hello World" +:+ nl;
    "-------------------------" +:+ nl ].

(** [void display_help()]: ten calls of [printf]. *)
Definition display_help (w : world) : world :=
  foldl (fun w s => printf s w) w help_text.

(** ** execute_command and main *)

Section Shell.
Context {os : OS}.

(** The input stream of the process once a child has run on the same
    open file.  The indicators are the process's own and stay; a stream
    whose end-of-file indicator is set delivers no more bytes, whatever
    became of the file (ISO C 7.21.7.1). *)
Definition shared_input (t : list event) (st : stdin_state) : stdin_state :=
  if in_eof st then st
  else let st' := os_input_after t st in
       Stdin (in_pending st') (in_end st') (in_eof st) (in_err st).

(** [void execute_command(char *args[])]. *)
Definition execute_command (args : list (option nat)) (w : world)
  : res (outcome unit * world) :=
  a0 ← match args !! 0 with Some a => Ok a | None => Undefined end;
  match a0 with
  | None => Ok (Return (), w)
  | Some p0 =>
      cmd ← cstring_at (m_buf (w_mem w)) p0;
      if bool_decide (strcmp cmd (chars "exit") = 0%Z) then
        Ok (Exit 0%Z, printf ("Exiting simple_shell." +:+ nl) w)
      else if bool_decide (strcmp cmd (chars "help") = 0%Z) then
        Ok (Return (), display_help w)
      else
        let pid := os_fork (w_trace w) in
        let w := emit (EFork pid) w in
        if bool_decide (pid = (-1)%Z) then
          Ok (Return (), perror "fork error" w)
        else if bool_decide (pid = 0%Z) then
          argv ← argv_strings (m_buf (w_mem w)) args;
          let loaded := os_execvp (w_trace w) cmd argv in
          let w := emit (EExecvp cmd argv loaded) w in
          if loaded then Ok (Exec, w)
          else Ok (Exit EXIT_FAILURE, perror "execvp error" w)
        else
          match os_waitpid (w_trace w) pid 0%Z with
          | None => Ok (Blocked, emit (EWaitpidBlocks pid 0%Z) w)
          | Some r =>
              let w := emit (EWaitpid pid 0%Z r) w in
              let w := World (w_mem w) (shared_input (w_trace w) (w_in w))
                             (w_trace w) in
              if bool_decide (r = (-1)%Z) then
                Ok (Return (), perror "waitpid error" w)
              else Ok (Return (), w)
          end
  end.

(** The [while (1)] loop of [main] and the [return 0] behind it;
    [fuel] bounds the number of iterations of the model. *)
Fixpoint main_loop (fuel : nat) (args : list (option nat)) (w : world)
  : res (outcome Z * world) :=
  match fuel with
  | 0 => OutOfFuel
  | S fuel' =>
      '(r, w1) ← read_command_line 0 MAX_LINE_LENGTH w;
      if bool_decide (r = (-1)%Z) then Ok (Return 0%Z, w1)
      else
        '(_, args1, m) ← parse_command_line 0 args (w_mem w1);
        '(c, w3) ← execute_command args1 (World m (w_in w1) (w_trace w1));
        match c with
        | Return _ => main_loop fuel' args1 w3
        | Exit code => Ok (Exit code, w3)
        | Exec => Ok (Exec, w3)
        | Blocked => Ok (Blocked, w3)
        end
  end.

(** [int main()]: the two arrays start with whatever the stack holds. *)
Definition main (fuel : nat) (line_buffer : list ascii)
    (args : list (option nat)) (input : stdin_state)
  : res (outcome Z * world) :=
  main_loop fuel args (World (Mem line_buffer None) input []).

End Shell.

(** An operating system for examples: every [fork] succeeds with child
    pid 100, every [waitpid] returns the pid it was given, and the
    children leave the input alone. *)
Definition calm_os : OS := {|
  os_fork := fun _ => 100%Z;
  os_execvp := fun _ _ _ => true;
  os_waitpid := fun _ pid _ => Some pid;
  os_input_after := fun _ st => st
|}.

(** An operating system that has no process left to give. *)
Definition full_os : OS := {|
  os_fork := fun _ => (-1)%Z;
  os_execvp := fun _ _ _ => false;
  os_waitpid := fun _ _ _ => Some (-1)%Z;
  os_input_after := fun _ st => st
|}.

(** The view from the child of a [fork]: [fork] returns 0, and [execvp]
    finds no program. *)
Definition child_os : OS := {|
  os_fork := fun _ => 0%Z;
  os_execvp := fun _ _ _ => false;
  os_waitpid := fun _ _ _ => Some (-1)%Z;
  os_input_after := fun _ st => st
|}.


(** An operating system on which the child never ends. *)
Definition endless_child_os : OS := {|
  os_fork := fun _ => 100%Z;
  os_execvp := fun _ _ _ => true;
  os_waitpid := fun _ _ _ => None;
  os_input_after := fun _ st => st
|}.

(** An operating system on which the first child, as it exits, moves
    the offset of the shared input back over the line "pwd". *)
Definition rewinding_os : OS := {|
  os_fork := fun _ => 100%Z;
  os_execvp := fun _ _ _ => true;
  os_waitpid := fun _ pid _ => Some pid;
  os_input_after := fun t st =>
    if bool_decide (length t = 4)
    then Stdin (chars "pwd" ++ NEWLINE :: in_pending st)
               (in_end st) (in_eof st) (in_err st)
    else st
|}.

(** An operating system on which every child, as it exits, moves the
    offset of the shared input back to the start of the line "pwd". *)
Definition replaying_os : OS := {|
  os_fork := fun _ => 100%Z;
  os_execvp := fun _ _ _ => false;
  os_waitpid := fun _ pid _ => Some pid;
  os_input_after := fun _ st =>
    Stdin (chars "pwd" ++ [NEWLINE]) (in_end st) (in_eof st) (in_err st)
|}.

(** A fresh input stream that delivers the text [s] and then ends. *)
Definition input_of (s : string) (e : stream_end) : stdin_state :=
  Stdin (chars s) e false false.

(** The strings [execvp] would be given for a line: the line is put in
    a buffer of its own size, parsed, and the vector is read back. *)
Definition argv_strings_of (line : list ascii) : res (list (list ascii)) :=
  '(_, args, m) ← parse_command_line 0 (replicate MAX_ARGS None)
                     (Mem (line ++ [NUL]) None);
  argv_strings (m_buf m) args.

(** ** Vocabulary of the properties *)

Definition TAB : ascii := "009"%char.

(** The whitespace characters of C: space, tab, newline, vertical tab,
    form feed, carriage return. *)
Definition is_whitespace (c : ascii) : bool :=
  bool_decide (c ∈ [SPACE; TAB; NEWLINE; "011"%char; "012"%char; "013"%char]).

(** The whitespace-delimited words of a line, in the words of the
    specification: the non-empty pieces between whitespace characters
    of any kind. *)
Definition whitespace_words (s : list ascii) : list (list ascii) :=
  words ((λ c, if is_whitespace c then SPACE else c) <$> s).

(** What tokenizing may do to a byte of the buffer: leave it, or turn a
    space into NUL. *)
Definition cut_byte (c c' : ascii) : Prop := c' = c ∨ (c = SPACE ∧ c' = NUL).

(** Words put on a line with single spaces between them. *)
Fixpoint join_words (ws : list (list ascii)) : list ascii :=
  match ws with
  | [] => []
  | [w] => w
  | w :: ws' => w ++ SPACE :: join_words ws'
  end.

(** The pointer [q] into [buf] points to the text [w]. *)
Definition points_to (buf : list ascii) (q : nat) (w : list ascii) : Prop :=
  cstring_at buf q = Ok w.

(** The vector [args], read in [buf], holds pointers to the texts [ws],
    in order, and then NULL. *)
Definition holds_tokens (buf : list ascii) (args : list (option nat))
    (ws : list (list ascii)) : Prop :=
  args !! length ws = Some None ∧
  ∀ i w, ws !! i = Some w → ∃ q, args !! i = Some (Some q) ∧ points_to buf q w.

(** The status a call of [read_command_line] returned. *)
Definition status_of (r : res (Z * world)) : option Z :=
  match r with
  | Ok (z, _) => Some z
  | _ => None
  end.

(** The last message of a run that ends with the input stream. *)
Definition end_message (e : stream_end) : event :=
  match e with
  | EndOfFile => EPrintf (nl +:+ "Exiting shell..." +:+ nl)
  | ReadError => EPerror "fgets error"
  end.

(** What the stream has for a read of at most [n - 1] bytes: a line (a
    newline among its bytes, or [n - 1] bytes and more, or at
    end-of-file some bytes of a last line without newline), or the end
    of the file with no byte left, or a read error before a line is
    there. *)
Inductive read_case := ReadsLine | MeetsEndOfFile | MeetsReadError.

Definition stream_gives (n : nat) (st : stdin_state) : read_case :=
  if bool_decide ((NEWLINE ∉ in_pending st) ∧ length (in_pending st) < n - 1)
  then match in_end st, in_pending st with
       | ReadError, _ => MeetsReadError
       | EndOfFile, [] => MeetsEndOfFile
       | EndOfFile, _ => ReadsLine
       end
  else ReadsLine.

(** The status [read_command_line] returns in each case. *)
Definition status_at (c : read_case) : Z :=
  match c with
  | ReadsLine => 0%Z
  | MeetsEndOfFile | MeetsReadError => (-1)%Z
  end.

(** What [read_command_line] prints behind the prompt in each case: the
    farewell when [feof] holds after the read, that is at end-of-file or
    when the indicator was set before, and the diagnostic otherwise. *)
Definition last_words (n : nat) (st : stdin_state) : list event :=
  match stream_gives n st with
  | ReadsLine => []
  | MeetsEndOfFile => [end_message EndOfFile]
  | MeetsReadError =>
      [if in_eof st then end_message EndOfFile else end_message ReadError]
  end.



(** The ways a run of the program stops, with the trace [t] it leaves.
    The shell itself, in whose trace no [fork] returned 0, returns 0
    from [main] behind the message of the stream's end, or ends in the
    [exit] built-in with code 0, or stays in a [waitpid] that does not
    return.  The child of a [fork] ends right behind that [fork]: its
    one further call is [execvp], which replaces the program, or fails
    and is followed by the diagnostic and [exit(EXIT_FAILURE)]. *)
Definition ends_well (o : outcome Z) (t : list event) : Prop :=
  match o with
  | Return c =>
      c = 0%Z ∧ (EFork 0%Z ∉ t) ∧
      ∃ t0 e, t = t0 ++ [EPrintf "simple_shell> "; EFflush; e]
              ∧ (e = end_message EndOfFile ∨ e = end_message ReadError)
  | Exit c =>
      (c = 0%Z ∧ (EFork 0%Z ∉ t) ∧
       ∃ t0, t = t0 ++ [EPrintf ("Exiting simple_shell." +:+ nl)])
      ∨ (c = EXIT_FAILURE ∧
         ∃ t0 cmd argv,
           t = t0 ++ [EFork 0%Z; EExecvp cmd argv false; EPerror "execvp error"]
           ∧ EFork 0%Z ∉ t0)
  | Exec =>
      ∃ t0 cmd argv, t = t0 ++ [EFork 0%Z; EExecvp cmd argv true] ∧ EFork 0%Z ∉ t0
  | Blocked =>
      (EFork 0%Z ∉ t) ∧
      ∃ t0 pid, t = t0 ++ [EFork pid; EWaitpidBlocks pid 0%Z]
                ∧ pid ≠ (-1)%Z ∧ pid ≠ 0%Z
  end.

(** * Properties *)

Example words_ls : words (chars "ls -l /tmp") = [chars "ls"; chars "-l"; chars "/tmp"].
Proof. reflexivity. Qed.

Example words_echo : words (chars "  echo   a b  ") = [chars "echo"; chars "a"; chars "b"].
Proof. reflexivity. Qed.

Example parse_ls :
  parse_command_line 0 (replicate MAX_ARGS None)
    (Mem (chars "ls -l" ++ NUL :: replicate 4 "x"%char) None)
  = Ok (2, [Some 0; Some 3; None; None; None; None; None; None; None; None],
        Mem (chars "ls" ++ NUL :: chars "-l" ++ NUL :: replicate 4 "x"%char) (Some 5)).
Proof. vm_compute. reflexivity. Qed.

(** A tab is not a delimiter: it stays inside the token. *)
Example parse_tab_is_no_delimiter :
  let tab := "009"%char in
  argv_strings_of (chars "a" ++ tab :: chars "b c")
  = Ok [chars "a" ++ tab :: chars "b"; chars "c"].
Proof. vm_compute. reflexivity. Qed.

(** A run of spaces separates two words like a single space does: the
    empty pieces of the cut are no tokens. *)
Example parse_collapses_spaces :
  split_on SPACE (chars "a  b") = [chars "a"; []; chars "b"] ∧
  argv_strings_of (chars "a  b") = Ok [chars "a"; chars "b"].
Proof. split; vm_compute; reflexivity. Qed.

(** A run of the whole program: an external command, then the end of
    the input. *)
Example main_runs_ls :
  (λ r, match r with Ok (o, w) => Some (o, w_trace w) | _ => None end)
    (@main calm_os 8 (replicate MAX_LINE_LENGTH "x"%char) (replicate MAX_ARGS None)
       (input_of ("ls -l" +:+ nl) EndOfFile))
  = Some (Return 0%Z,
          [EPrintf "simple_shell> "; EFflush; EFork 100; EWaitpid 100 0 100;
           EPrintf "simple_shell> "; EFflush;
           EPrintf (nl +:+ "Exiting shell..." +:+ nl)]).
Proof. vm_compute. reflexivity. Qed.

(** The input is an open file that the children share: when a child
    moves its offset back, the shell reads the line again. *)
Example main_reads_a_line_again :
  (λ r, match r with Ok (o, w) => Some (o, w_trace w) | _ => None end)
    (@main rewinding_os 8 (replicate MAX_LINE_LENGTH "x"%char) (replicate MAX_ARGS None)
       (input_of ("pwd" +:+ nl) EndOfFile))
  = Some (Return 0%Z,
          [EPrintf "simple_shell> "; EFflush; EFork 100; EWaitpid 100 0 100;
           EPrintf "simple_shell> "; EFflush; EFork 100; EWaitpid 100 0 100;
           EPrintf "simple_shell> "; EFflush;
           EPrintf (nl +:+ "Exiting shell..." +:+ nl)]).
Proof. vm_compute. reflexivity. Qed.

(** A child that does not end keeps the shell in [waitpid]: no further
    prompt is printed and the rest of the input is not read. *)
Example main_stays_in_waitpid :
  (λ r, match r with
        | Ok (o, w) => Some (o, w_trace w, in_pending (w_in w))
        | _ => None
        end)
    (@main endless_child_os 8 (replicate MAX_LINE_LENGTH "x"%char)
       (replicate MAX_ARGS None) (input_of ("yes" +:+ nl +:+ "ls" +:+ nl) EndOfFile))
  = Some (Blocked,
          [EPrintf "simple_shell> "; EFflush; EFork 100; EWaitpidBlocks 100 0],
          chars ("ls" +:+ nl)).
Proof. vm_compute. reflexivity. Qed.

(** ** Words *)

Section Words.
Implicit Types (s w sp : list ascii) (c : ascii).

Lemma split_on_not_nil d s : split_on d s ≠ [].
Proof.
  destruct s as [|c s]; simpl; [done|].
  case_bool_decide; [done|]. by destruct (split_on d s).
Qed.

Lemma split_on_word d w : d ∉ w → split_on d w = [w].
Proof.
  induction w as [|c w IH]; intros Hd; simpl; [done|].
  apply not_elem_of_cons in Hd as [Hc Hw].
  rewrite bool_decide_false by done. by rewrite IH.
Qed.

Lemma split_on_word_delim d w s :
  d ∉ w → split_on d (w ++ d :: s) = w :: split_on d s.
Proof.
  induction w as [|c w IH]; intros Hd; simpl.
  - by rewrite bool_decide_true.
  - apply not_elem_of_cons in Hd as [Hc Hw].
    rewrite bool_decide_false by done. by rewrite IH.
Qed.

Lemma words_space s : words (SPACE :: s) = words s.
Proof. unfold words. simpl. rewrite filter_cons_False; [done|naive_solver]. Qed.

Lemma words_spaces sp s : Forall (eq SPACE) sp → words (sp ++ s) = words s.
Proof.
  induction 1 as [|c sp <- _ IH]; simpl; [done|]. by rewrite words_space.
Qed.

Lemma words_only_spaces sp : Forall (eq SPACE) sp → words sp = [].
Proof. intros H. rewrite <- (app_nil_r sp). by rewrite words_spaces. Qed.

Lemma words_word w : w ≠ [] → SPACE ∉ w → words w = [w].
Proof.
  intros Hne Hsp. unfold words. rewrite split_on_word by done.
  by rewrite filter_cons_True, filter_nil.
Qed.

Lemma words_word_space w s :
  w ≠ [] → SPACE ∉ w → words (w ++ SPACE :: s) = w :: words s.
Proof.
  intros Hne Hsp. unfold words. rewrite split_on_word_delim by done.
  by rewrite filter_cons_True.
Qed.

Lemma words_nonempty s : Forall (fun w => w ≠ []) (words s).
Proof.
  unfold words. apply Forall_forall. intros w Hw.
  by apply list_elem_of_filter in Hw as [? _].
Qed.

(** A text is a space-free run followed by nothing or by a space. *)
Lemma span_word s :
  ∃ w s', s = w ++ s' ∧ (SPACE ∉ w) ∧ (s' = [] ∨ (∃ s'', s' = SPACE :: s'')).
Proof.
  induction s as [|c s (w & s' & -> & Hw & Hs')].
  - exists [], []. split_and!; [done|apply not_elem_of_nil|by left].
  - destruct (decide (c = SPACE)) as [->|Hc].
    + exists [], (SPACE :: w ++ s'). split_and!; [done|apply not_elem_of_nil|eauto].
    + exists (c :: w), s'. split_and!; [done| |done].
      apply not_elem_of_cons. naive_solver.
Qed.

(** A line is all spaces, or spaces, a word, and then nothing or a
    space and the rest. *)
Lemma line_cases s :
  Forall (eq SPACE) s ∨
  ∃ sp w s', s = sp ++ w ++ s' ∧ Forall (eq SPACE) sp ∧ w ≠ [] ∧ (SPACE ∉ w) ∧
             (s' = [] ∨ (∃ s'', s' = SPACE :: s'')).
Proof.
  induction s as [|c s IH]; [by left|].
  destruct (decide (c = SPACE)) as [->|Hc].
  - destruct IH as [IH|(sp & w & s' & -> & Hsp & Hw & Hnw & Hs')].
    + left. by constructor.
    + right. exists (SPACE :: sp), w, s'. split_and!; try done. by constructor.
  - right. destruct (span_word s) as (w & s' & -> & Hw & Hs').
    exists [], (c :: w), s'. split_and!; try done.
    apply not_elem_of_cons. naive_solver.
Qed.

End Words.

(** ** The C library on well-formed strings *)

Section LibcFacts.
Implicit Types (s w sp pre rest : list ascii) (c : ascii).

Lemma SPACE_not_NUL : SPACE ≠ NUL.
Proof. done. Qed.

Lemma load_middle pre c rest : load (pre ++ c :: rest) (length pre) = Ok c.
Proof. unfold load. by rewrite list_lookup_middle. Qed.

Lemma cstring_word w rest : NUL ∉ w → cstring (w ++ NUL :: rest) = Ok w.
Proof.
  induction w as [|c w IH]; intros Hn; simpl; [done|].
  apply not_elem_of_cons in Hn as [Hc Hw].
  rewrite bool_decide_false by done. by rewrite IH.
Qed.

Lemma cstring_at_word pre w rest :
  NUL ∉ w → cstring_at (pre ++ w ++ NUL :: rest) (length pre) = Ok w.
Proof.
  intros Hn. unfold cstring_at. rewrite drop_app_length. by apply cstring_word.
Qed.

Lemma strspn_spaces sp c rest :
  Forall (eq SPACE) sp → c ≠ SPACE →
  strspn (sp ++ c :: rest) [SPACE] = Ok (length sp).
Proof.
  intros Hsp Hc. induction Hsp as [|d sp <- _ IH]; cbn [strspn app length].
  - case_bool_decide; [done|].
    rewrite bool_decide_false; [done|]. by rewrite list_elem_of_singleton.
  - rewrite bool_decide_false by done.
    rewrite bool_decide_true by (by apply list_elem_of_singleton).
    by rewrite IH.
Qed.

Lemma strcspn_word w c rest d :
  NUL ∉ w → d ∉ w → c = NUL ∨ c = d →
  strcspn (w ++ c :: rest) [d] = Ok (length w).
Proof.
  intros Hn Hd Hc. induction w as [|x w IH]; cbn [strcspn app length].
  - case_bool_decide; [done|]. destruct Hc as [? | ->]; [done|].
    rewrite bool_decide_true; [done|]. by apply list_elem_of_singleton.
  - apply not_elem_of_cons in Hn as [? ?]. apply not_elem_of_cons in Hd as [? ?].
    rewrite bool_decide_false by done.
    rewrite bool_decide_false by (by rewrite list_elem_of_singleton).
    by rewrite IH.
Qed.

Lemma cstring_no_NUL mem s : cstring mem = Ok s → NUL ∉ s.
Proof.
  revert s. induction mem as [|c mem IH]; intros s; simpl; [done|].
  case_bool_decide as Hc.
  - intros [= <-]. apply not_elem_of_nil.
  - destruct (cstring mem) as [s'| |]; simpl; try done.
    intros [= <-]. apply not_elem_of_cons. split; [done|by apply IH].
Qed.

Lemma nat_of_ascii_inj c d : nat_of_ascii c = nat_of_ascii d → c = d.
Proof.
  intros H. rewrite <- (ascii_nat_embedding c), <- (ascii_nat_embedding d).
  by rewrite H.
Qed.

Lemma strcmp_refl a : strcmp a a = 0%Z.
Proof. induction a as [|c a IH]; simpl; [done|]. by rewrite bool_decide_true. Qed.

Lemma strcmp_eq a b : NUL ∉ a → NUL ∉ b → strcmp a b = 0%Z ↔ a = b.
Proof.
  intros Ha Hb. split; [|intros ->; apply strcmp_refl].
  revert b Ha Hb. induction a as [|c a IH]; intros [|d b] Ha Hb; simpl; try done.
  - apply not_elem_of_cons in Hb as [Hd _]. intros H. destruct Hd.
    apply nat_of_ascii_inj. change (nat_of_ascii NUL) with 0. lia.
  - apply not_elem_of_cons in Ha as [Hc _]. intros H. destruct Hc.
    apply nat_of_ascii_inj. change (nat_of_ascii NUL) with 0. lia.
  - apply not_elem_of_cons in Ha as [_ Ha]. apply not_elem_of_cons in Hb as [_ Hb].
    case_bool_decide as Hcd.
    + subst d. intros H. f_equal. by apply IH.
    + intros H. destruct Hcd. apply nat_of_ascii_inj. lia.
Qed.

Lemma bind_Ok {A B} (a : A) (f : A → res B) : (Ok a ≫= f) = f a.
Proof. done. Qed.

Lemma load_at a c b n : n = length a → load (a ++ c :: b) n = Ok c.
Proof. intros ->. apply load_middle. Qed.

Lemma drop_at {A} (a b : list A) n : n = length a → drop n (a ++ b) = b.
Proof. intros ->. apply drop_app_length. Qed.

Lemma store_at {A} (a : list A) (y : A) (b : list A) n (x : A) :
  n = length a → store (a ++ y :: b) n x = Ok (a ++ x :: b).
Proof.
  intros ->. unfold store. rewrite bool_decide_true.
  - rewrite insert_app_r_alt by done. by rewrite Nat.sub_diag.
  - rewrite length_app. simpl. lia.
Qed.

(** [strtok] on a buffer that holds only delimiters up to the
    terminator. *)
Lemma strtok_none pre sp tl ptr save :
  Forall (eq SPACE) sp →
  ptr = Some (length pre) ∨ (ptr = None ∧ save = Some (length pre)) →
  strtok ptr [SPACE] (Mem (pre ++ sp ++ NUL :: tl) save)
  = Ok (None, Mem (pre ++ sp ++ NUL :: tl) (Some (length (pre ++ sp)))).
Proof.
  intros Hsp Hptr. unfold strtok.
  assert (match ptr with
          | Some p => Ok p
          | None => match m_save (Mem (pre ++ sp ++ NUL :: tl) save) with
                    | Some p => Ok p | None => Undefined end
          end = Ok (length pre)) as -> by (by destruct Hptr as [-> | [-> ->]]).
  rewrite bind_Ok. cbn [m_buf].
  destruct Hsp as [|c sp <- Hsp]; cbn [app].
  - rewrite (load_at pre) by done. rewrite bind_Ok.
    rewrite bool_decide_true by done. by rewrite app_nil_r.
  - rewrite (load_at pre) by done. rewrite bind_Ok.
    rewrite bool_decide_false by done.
    rewrite (drop_at pre) by done.
    change (SPACE :: sp ++ NUL :: tl) with ((SPACE :: sp) ++ NUL :: tl).
    rewrite (strspn_spaces (SPACE :: sp)) by (done || by constructor).
    rewrite bind_Ok. rewrite (app_assoc pre).
    rewrite (load_at (pre ++ SPACE :: sp)) by (by rewrite length_app).
    rewrite bind_Ok. rewrite bool_decide_true by done.
    by rewrite length_app.
Qed.

(** [strtok] on a buffer that holds delimiters, a word, and then the
    terminator or a delimiter. *)
Lemma strtok_word pre sp w c tl ptr save :
  Forall (eq SPACE) sp → w ≠ [] → SPACE ∉ w → NUL ∉ w →
  c = NUL ∨ c = SPACE →
  ptr = Some (length pre) ∨ (ptr = None ∧ save = Some (length pre)) →
  strtok ptr [SPACE] (Mem (pre ++ sp ++ w ++ c :: tl) save)
  = Ok (Some (length (pre ++ sp)),
        if bool_decide (c = NUL)
        then Mem (pre ++ sp ++ w ++ c :: tl) (Some (length (pre ++ sp ++ w)))
        else Mem (pre ++ sp ++ w ++ NUL :: tl)
                 (Some (length (pre ++ sp ++ w) + 1))).
Proof.
  intros Hsp Hne Hws Hwn Hc Hptr. unfold strtok.
  assert (match ptr with
          | Some p => Ok p
          | None => match m_save (Mem (pre ++ sp ++ w ++ c :: tl) save) with
                    | Some p => Ok p | None => Undefined end
          end = Ok (length pre)) as -> by (by destruct Hptr as [-> | [-> ->]]).
  rewrite bind_Ok. cbn [m_buf].
  destruct w as [|x w]; [done|].
  apply not_elem_of_cons in Hws as [Hxs Hws].
  apply not_elem_of_cons in Hwn as [Hxn Hwn].
  assert (∃ c0 tl0, sp ++ (x :: w) ++ c :: tl = c0 :: tl0 ∧ c0 ≠ NUL)
    as (c0 & tl0 & E0 & Hc0).
  { destruct Hsp as [|? sp <- _]; simpl; eauto. }
  rewrite E0. rewrite (load_at pre) by done. rewrite bind_Ok.
  rewrite bool_decide_false by done. rewrite <- E0. clear E0 Hc0 c0 tl0.
  rewrite (drop_at pre) by done.
  change (sp ++ (x :: w) ++ c :: tl) with (sp ++ x :: (w ++ c :: tl)).
  rewrite (strspn_spaces sp) by (done || congruence).
  rewrite bind_Ok. rewrite (app_assoc pre).
  rewrite (load_at (pre ++ sp)) by (by rewrite length_app).
  rewrite bind_Ok. rewrite bool_decide_false by done.
  rewrite (drop_at (pre ++ sp)) by (by rewrite length_app).
  change (x :: w ++ c :: tl) with ((x :: w) ++ c :: tl).
  rewrite (strcspn_word (x :: w)); [| | |done].
  2: { apply not_elem_of_cons; done. }
  2: { apply not_elem_of_cons; done. }
  rewrite bind_Ok. rewrite (app_assoc (pre ++ sp)).
  rewrite (load_at ((pre ++ sp) ++ x :: w)) by (by rewrite !length_app).
  rewrite bind_Ok.
  rewrite <- !length_app.
  case_bool_decide as Hnul.
  - by rewrite <- !app_assoc.
  - rewrite (store_at ((pre ++ sp) ++ x :: w)) by done. rewrite bind_Ok.
    by rewrite <- !app_assoc.
Qed.

(** One call of [strtok] on a line: the buffer is [pre], the part of
    the line still to scan, its terminator and the rest of the array.
    The call consumes [mid] and leaves [s'] to scan; the token, if any,
    is the first word of the line, and it stays readable whatever later
    calls do to the part left to scan. *)
Lemma strtok_spec pre s rest ptr save :
  NUL ∉ s →
  ptr = Some (length pre) ∨ (ptr = None ∧ save = Some (length pre)) →
  ∃ tok mid s',
    strtok ptr [SPACE] (Mem (pre ++ s ++ NUL :: rest) save)
    = Ok (tok, Mem ((pre ++ mid) ++ s' ++ NUL :: rest)
                   (Some (length (pre ++ mid))))
    ∧ (NUL ∉ s') ∧ length mid + length s' = length s
    ∧ match tok with
      | None => words s = []
      | Some q =>
          ∃ w, words s = w :: words s' ∧
               ∀ s2, length s2 = length s' →
                     cstring_at ((pre ++ mid) ++ s2 ++ NUL :: rest) q = Ok w
      end.
Proof.
  intros Hn Hptr.
  destruct (line_cases s) as [Hsp | (sp & w & s' & -> & Hsp & Hne & Hws & Hs')].
  - exists None, s, []. rewrite strtok_none by done.
    split_and!.
    + by rewrite <- !app_assoc.
    + apply not_elem_of_nil.
    + simpl. lia.
    + by apply words_only_spaces.
  - apply not_elem_of_app in Hn as [_ Hn]. apply not_elem_of_app in Hn as [Hwn Hn].
    destruct Hs' as [-> | [s'' ->]].
    + exists (Some (length (pre ++ sp))), (sp ++ w), [].
      rewrite app_nil_r. rewrite <- !app_assoc.
      rewrite (strtok_word pre sp w NUL); [|done|done|done|done|by left|done]. rewrite bool_decide_true by done.
      split_and!.
      * done.
      * apply not_elem_of_nil.
      * simpl. lia.
      * exists w. split.
        { rewrite words_spaces by done. by apply words_word. }
        intros s2 Hs2. apply nil_length_inv in Hs2 as ->. simpl.
        rewrite <- !app_assoc, (app_assoc pre sp). by apply cstring_at_word.
    + exists (Some (length (pre ++ sp))), (sp ++ w ++ [NUL]), s''.
      rewrite <- !app_assoc. cbn [app].
      rewrite (strtok_word pre sp w SPACE); [|done|done|done|done|by right|done]. rewrite bool_decide_false by done.
      apply not_elem_of_cons in Hn as [_ Hn].
      split_and!.
      * do 4 f_equal. rewrite !length_app. simpl. lia.
      * done.
      * rewrite !length_app. simpl. lia.
      * exists w. split.
        { rewrite words_spaces by done. by apply words_word_space. }
        intros s2 _. rewrite <- !app_assoc, (app_assoc pre sp).
        by apply cstring_at_word.
Qed.

End LibcFacts.

(** ** The tokenizer *)

Section ParseFacts.
Implicit Types (s line pre rest : list ascii) (args : list (option nat)).

(** The loop, entered with [k] slots filled, the token [tok] in hand and
    [s] left to scan: it fills the next slots with pointers to the words
    still pending, up to slot [MAX_ARGS - 2], and changes the buffer
    only inside the part left to scan. *)
Lemma parse_loop_spec fuel : ∀ k args pre s rest tok ws,
  MAX_ARGS - 1 - k ≤ fuel →
  length args = MAX_ARGS →
  NUL ∉ s →
  match tok with
  | None => ws = []
  | Some q =>
      ∃ w, ws = w :: words s ∧
           ∀ s2, length s2 = length s → points_to (pre ++ s2 ++ NUL :: rest) q w
  end →
  ∃ ptrs s2 save',
    parse_loop fuel tok k args (Mem (pre ++ s ++ NUL :: rest) (Some (length pre)))
    = Ok (k + length ptrs,
          take k args ++ (Some <$> ptrs) ++ drop (k + length ptrs) args,
          Mem (pre ++ s2 ++ NUL :: rest) save')
    ∧ length s2 = length s
    ∧ Forall2 (points_to (pre ++ s2 ++ NUL :: rest)) ptrs
              (take (MAX_ARGS - 1 - k) ws).
Proof.
  assert (∀ fuel' k args pre s rest tok ws,
    (tok = None ∧ ws = []) ∨ (MAX_ARGS - 1 ≤ k) →
    ∃ ptrs s2 save',
      parse_loop fuel' tok k args (Mem (pre ++ s ++ NUL :: rest) (Some (length pre)))
      = Ok (k + length ptrs,
            take k args ++ (Some <$> ptrs) ++ drop (k + length ptrs) args,
            Mem (pre ++ s2 ++ NUL :: rest) save')
      ∧ length s2 = length s
      ∧ Forall2 (points_to (pre ++ s2 ++ NUL :: rest)) ptrs
                (take (MAX_ARGS - 1 - k) ws)) as Hstop.
  { intros fuel' k args pre s rest tok ws Hstop.
    exists [], s, (Some (length pre)). simpl.
    rewrite Nat.add_0_r, take_drop.
    destruct Hstop as [[-> ->] | Hk].
    - rewrite take_nil. by destruct fuel'.
    - unfold MAX_ARGS in *.
      destruct fuel', tok; simpl; rewrite ?bool_decide_false by lia.
      all: by replace (9 - k) with 0 by lia. }
  induction fuel as [|fuel IH]; intros k args pre s rest tok ws Hfuel Hargs Hn Htok.
  { apply Hstop. destruct tok; [right|by left]. unfold MAX_ARGS in *. lia. }
  destruct tok as [q|]; [|apply Hstop; by left].
  destruct (decide (k < MAX_ARGS - 1)) as [Hk|Hk]; [|apply Hstop; right; lia].
  cbn [parse_loop]. rewrite bool_decide_true by done.
  - destruct Htok as (w & -> & Hq).
    unfold store. rewrite bool_decide_true by (unfold MAX_ARGS in *; lia).
    rewrite bind_Ok.
    destruct (strtok_spec pre s rest None (Some (length pre)) Hn)
      as (tok' & mid & s' & -> & Hn' & Hlen & Htok'); [by right|].
    rewrite bind_Ok.
    destruct (IH (S k) (<[k:=Some q]> args) (pre ++ mid) s' rest tok' (words s))
      as (ptrs & s2 & save' & -> & Hlen2 & Hptrs).
    { unfold MAX_ARGS in *. lia. }
    { by rewrite length_insert. }
    { done. }
    { destruct tok'; [|done]. destruct Htok' as (w' & ? & ?). by exists w'. }
    assert (pre ++ (mid ++ s2) ++ NUL :: rest = (pre ++ mid) ++ s2 ++ NUL :: rest)
      as E by (by rewrite <- !app_assoc).
    exists (q :: ptrs), (mid ++ s2), save'. rewrite E. split_and!.
    + do 2 f_equal.
      f_equal; [simpl; lia|].
      rewrite (take_S_r _ _ (Some q)) by (apply list_lookup_insert_eq;
                                          unfold MAX_ARGS in *; lia).
      rewrite take_insert_ge by done. rewrite drop_insert_lt by lia.
      rewrite <- app_assoc. simpl. by rewrite Nat.add_succ_r.
    + rewrite length_app. lia.
    + replace (MAX_ARGS - 1 - k) with (S (MAX_ARGS - 1 - S k))
        by (unfold MAX_ARGS in *; lia).
      cbn [take]. constructor.
      * rewrite <- E. apply Hq. rewrite length_app. lia.
      * done.
Qed.

(** What [parse_command_line] does to a buffer that holds a line: it
    returns the number of pointers stored, the vector is these
    pointers, NULL, and the slots it did not touch, and the pointers
    point to the first [MAX_ARGS - 1] words of the line. *)
Lemma parse_command_line_spec pre line rest args save :
  NUL ∉ line → length args = MAX_ARGS →
  ∃ ptrs s2 save',
    parse_command_line (length pre) args (Mem (pre ++ line ++ NUL :: rest) save)
    = Ok (length ptrs,
          (Some <$> ptrs) ++ None :: drop (S (length ptrs)) args,
          Mem (pre ++ s2 ++ NUL :: rest) save')
    ∧ length s2 = length line
    ∧ Forall2 (points_to (pre ++ s2 ++ NUL :: rest)) ptrs
              (take (MAX_ARGS - 1) (words line)).
Proof.
  intros Hn Hargs. unfold parse_command_line.
  destruct (strtok_spec pre line rest (Some (length pre)) save Hn)
    as (tok & mid & s' & -> & Hn' & Hlen & Htok); [by left|].
  rewrite bind_Ok.
  destruct (parse_loop_spec MAX_ARGS 0 args (pre ++ mid) s' rest tok (words line))
    as (ptrs & s2 & save' & -> & Hlen2 & Hptrs); [lia|done|done| |].
  { destruct tok; [|done]. destruct Htok as (w' & ? & ?). by exists w'. }
  rewrite bind_Ok. simpl.
  rewrite Nat.sub_0_r in Hptrs.
  assert (length ptrs < length args) as Hlt.
  { apply Forall2_length in Hptrs. rewrite length_take in Hptrs.
    rewrite Hargs. unfold MAX_ARGS in *. lia. }
  destruct (lookup_lt_is_Some_2 args (length ptrs) Hlt) as [a Ha].
  rewrite (drop_S _ _ _ Ha).
  rewrite store_at by (by rewrite length_fmap). rewrite bind_Ok.
  exists ptrs, (mid ++ s2), save'.
  replace (pre ++ (mid ++ s2) ++ NUL :: rest)
    with ((pre ++ mid) ++ s2 ++ NUL :: rest) by (by rewrite <- !app_assoc).
  split_and!; [done| |done]. rewrite length_app. lia.
Qed.

(** Reading a vector of valid pointers followed by NULL. *)
Lemma argv_strings_spec buf ptrs ws tl :
  Forall2 (points_to buf) ptrs ws →
  argv_strings buf ((Some <$> ptrs) ++ None :: tl) = Ok ws.
Proof.
  induction 1 as [|q w ptrs ws Hq _ IH]; [done|].
  rewrite fmap_cons. cbn [app argv_strings].
  unfold points_to in Hq. by rewrite Hq, bind_Ok, IH.
Qed.

Lemma holds_tokens_intro buf ptrs ws tl :
  Forall2 (points_to buf) ptrs ws →
  holds_tokens buf ((Some <$> ptrs) ++ None :: tl) ws.
Proof.
  intros H. split.
  - rewrite <- (Forall2_length _ _ _ H), <- (length_fmap Some ptrs).
    apply list_lookup_middle. done.
  - intros i w Hw. destruct (Forall2_lookup_r _ _ _ _ _ H Hw) as (q & Hq & Hp).
    exists q. split; [|done]. apply lookup_app_l_Some.
    by rewrite list_lookup_fmap, Hq.
Qed.

(** [parse_command_line] on the line at the start of the buffer. *)
Lemma parse_command_line_vector line rest args save :
  NUL ∉ line → length args = MAX_ARGS →
  ∃ args' m',
    parse_command_line 0 args (Mem (line ++ NUL :: rest) save)
    = Ok (length (take (MAX_ARGS - 1) (words line)), args', m')
    ∧ holds_tokens (m_buf m') args' (take (MAX_ARGS - 1) (words line))
    ∧ argv_strings (m_buf m') args' = Ok (take (MAX_ARGS - 1) (words line))
    ∧ length args' = MAX_ARGS
    ∧ length (m_buf m') = length (line ++ NUL :: rest)
    ∧ NUL ∈ m_buf m'.
Proof.
  intros Hn Hargs.
  destruct (parse_command_line_spec [] line rest args save Hn Hargs)
    as (ptrs & s2 & save' & Hrun & Hlen & Hptrs).
  simpl in Hrun, Hptrs. rewrite Hrun.
  pose proof (Forall2_length _ _ _ Hptrs) as Hl.
  eexists _, _. split_and!.
  - by rewrite Hl.
  - by apply holds_tokens_intro.
  - by apply argv_strings_spec.
  - rewrite length_app, length_fmap. simpl. rewrite length_drop.
    rewrite length_take in *. unfold MAX_ARGS in *. lia.
  - simpl. rewrite !length_app. simpl. lia.
  - simpl. apply elem_of_app. right. by left.
Qed.

End ParseFacts.

(** C1: a command line under the length limit with N space-separated
    words, N <= 9, is cut into exactly N tokens followed by the NULL
    marker, and the text of the i-th token is the i-th word of the line. *)
Theorem parse_tokens_are_the_words
    (line rest : list ascii) (args : list (option nat)) (save : option nat) (N : nat) :
  NUL ∉ line →
  length line < MAX_LINE_LENGTH →
  length (line ++ NUL :: rest) = MAX_LINE_LENGTH →
  length args = MAX_ARGS →
  length (words line) = N → N ≤ MAX_ARGS - 1 →
  ∃ args' m',
    parse_command_line 0 args (Mem (line ++ NUL :: rest) save) = Ok (N, args', m')
    ∧ args' !! N = Some None
    ∧ (∀ i w, words line !! i = Some w →
              ∃ q, args' !! i = Some (Some q) ∧ cstring_at (m_buf m') q = Ok w)
    ∧ argv_strings (m_buf m') args' = Ok (words line).
Proof.
  intros Hn _ _ Hargs HN Hle.
  destruct (parse_command_line_vector line rest args save Hn Hargs)
    as (args' & m' & Hrun & [Hnull Htok] & Hargv & _).
  rewrite take_ge in Hrun, Hnull, Htok, Hargv by lia.
  rewrite HN in Hrun, Hnull. by exists args', m'.
Qed.

Lemma parse_tokens_are_the_words_witness :
  let line := chars "ls -l /tmp" in
  let rest := replicate 245 "x"%char in
  let args := replicate MAX_ARGS (Some 7) in
  ∃ args' m',
    parse_command_line 0 args (Mem (line ++ NUL :: rest) None) = Ok (3, args', m')
    ∧ args' !! 3 = Some None
    ∧ (∀ i w, words line !! i = Some w →
              ∃ q, args' !! i = Some (Some q) ∧ cstring_at (m_buf m') q = Ok w)
    ∧ argv_strings (m_buf m') args' = Ok (words line).
Proof.
  apply (parse_tokens_are_the_words (chars "ls -l /tmp") (replicate 245 "x"%char)
           (replicate MAX_ARGS (Some 7)) None 3).
  - apply (bool_decide_unpack _). vm_compute. exact I.
  - vm_compute. lia.
  - vm_compute. reflexivity.
  - reflexivity.
  - reflexivity.
  - vm_compute. lia.
Defined.



(** C3, as the code has it: of a line with more than 9 words separated
    by the space character the first 9 are kept as tokens and the others
    are dropped: the call succeeds, returns 9, and the vector holds the
    first 9 words and then NULL. *)
Theorem parse_keeps_first_nine
    (line rest : list ascii) (args : list (option nat)) (save : option nat) :
  NUL ∉ line →
  length args = MAX_ARGS →
  MAX_ARGS - 1 < length (words line) →
  ∃ args' m',
    parse_command_line 0 args (Mem (line ++ NUL :: rest) save)
    = Ok (MAX_ARGS - 1, args', m')
    ∧ args' !! (MAX_ARGS - 1) = Some None
    ∧ (∀ i w, i < MAX_ARGS - 1 → words line !! i = Some w →
              ∃ q, args' !! i = Some (Some q) ∧ cstring_at (m_buf m') q = Ok w)
    ∧ argv_strings (m_buf m') args' = Ok (take (MAX_ARGS - 1) (words line)).
Proof.
  intros Hn Hargs Hmany.
  destruct (parse_command_line_vector line rest args save Hn Hargs)
    as (args' & m' & Hrun & [Hnull Htok] & Hargv & _).
  rewrite length_take_le in Hrun, Hnull by lia.
  exists args', m'. split_and!; try done.
  intros i w Hi Hw. apply Htok. by rewrite lookup_take_lt.
Qed.

Lemma parse_keeps_first_nine_witness :
  let line := chars "echo 1 2 3 4 5 6 7 8 9 10 11" in
  let args := replicate MAX_ARGS None in
  ∃ args' m',
    parse_command_line 0 args (Mem (line ++ NUL :: []) None)
    = Ok (MAX_ARGS - 1, args', m')
    ∧ args' !! (MAX_ARGS - 1) = Some None
    ∧ (∀ i w, i < MAX_ARGS - 1 → words line !! i = Some w →
              ∃ q, args' !! i = Some (Some q) ∧ cstring_at (m_buf m') q = Ok w)
    ∧ argv_strings (m_buf m') args' = Ok (take (MAX_ARGS - 1) (words line)).
Proof.
  apply (parse_keeps_first_nine (chars "echo 1 2 3 4 5 6 7 8 9 10 11") []
           (replicate MAX_ARGS None) None).
  - apply (bool_decide_unpack _). vm_compute. exact I.
  - reflexivity.
  - vm_compute. lia.
Defined.

(** C3, as stated, fails for whitespace other than the space: a line of
    ten words separated by tabs is one token, the whole line. *)
Lemma parse_tabs_do_not_split :
  let tab := String TAB EmptyString in
  let line := chars ("1" +:+ tab +:+ "2" +:+ tab +:+ "3" +:+ tab +:+ "4" +:+ tab
                     +:+ "5" +:+ tab +:+ "6" +:+ tab +:+ "7" +:+ tab +:+ "8"
                     +:+ tab +:+ "9" +:+ tab +:+ "10") in
  MAX_ARGS - 1 < length (whitespace_words line)
  ∧ argv_strings_of line = Ok [line]
  ∧ argv_strings_of line ≠ Ok (take (MAX_ARGS - 1) (whitespace_words line)).
Proof. split_and!; [vm_compute; lia|vm_compute; reflexivity|vm_compute; discriminate]. Qed.

(** C5: for every line, the vector that [parse_command_line] leaves has
    NULL at the index equal to the returned count and non-NULL pointers
    before it, so that a reader that stops at the first NULL finds
    exactly that many strings. *)
Theorem parse_vector_null_terminated
    (line rest : list ascii) (args : list (option nat)) (save : option nat) :
  NUL ∉ line →
  length args = MAX_ARGS →
  ∃ n args' m' ws,
    parse_command_line 0 args (Mem (line ++ NUL :: rest) save) = Ok (n, args', m')
    ∧ args' !! n = Some None
    ∧ (∀ i, i < n → ∃ q, args' !! i = Some (Some q))
    ∧ argv_strings (m_buf m') args' = Ok ws
    ∧ length ws = n.
Proof.
  intros Hn Hargs.
  destruct (parse_command_line_vector line rest args save Hn Hargs)
    as (args' & m' & Hrun & [Hnull Htok] & Hargv & _).
  eexists _, args', m', _. split_and!; try done.
  intros i Hi. destruct (lookup_lt_is_Some_2 _ _ Hi) as [w Hw].
  destruct (Htok i w Hw) as (q & Hq & _). by exists q.
Qed.

Lemma parse_vector_null_terminated_witness :
  ∃ n args' m' ws,
    parse_command_line 0 (replicate MAX_ARGS (Some 1))
      (Mem (chars " cat  a.txt " ++ NUL :: chars "junk") (Some 3))
    = Ok (n, args', m')
    ∧ args' !! n = Some None
    ∧ (∀ i, i < n → ∃ q, args' !! i = Some (Some q))
    ∧ argv_strings (m_buf m') args' = Ok ws
    ∧ length ws = n.
Proof.
  apply (parse_vector_null_terminated (chars " cat  a.txt ") (chars "junk")
           (replicate MAX_ARGS (Some 1)) (Some 3)).
  - apply (bool_decide_unpack _). vm_compute. exact I.
  - reflexivity.
Defined.

(** C10: every token that [parse_command_line] produces is a non-empty
    string, whatever spaces the line has at its start, at its end or in
    a row; in particular [args[0]], when it is not NULL, is not empty. *)
Theorem parse_tokens_nonempty
    (line rest : list ascii) (args : list (option nat)) (save : option nat) :
  NUL ∉ line →
  length args = MAX_ARGS →
  ∃ n args' m',
    parse_command_line 0 args (Mem (line ++ NUL :: rest) save) = Ok (n, args', m')
    ∧ ∀ i, i < n →
           ∃ q w, args' !! i = Some (Some q) ∧ cstring_at (m_buf m') q = Ok w ∧ w ≠ [].
Proof.
  intros Hn Hargs.
  destruct (parse_command_line_vector line rest args save Hn Hargs)
    as (args' & m' & Hrun & [Hnull Htok] & Hargv & _).
  eexists _, args', m'. split; [done|].
  intros i Hi.
  rewrite length_take in Hi.
  destruct (lookup_lt_is_Some_2 (take (MAX_ARGS - 1) (words line)) i) as [w Hw];
    [by rewrite length_take|].
  destruct (Htok i w Hw) as (q & Hq & Hp). exists q, w. split_and!; try done.
  apply lookup_take_Some in Hw as [Hw _].
  apply (Forall_lookup_1 _ _ _ _ (words_nonempty line) Hw).
Qed.

Lemma parse_tokens_nonempty_witness :
  ∃ n args' m',
    parse_command_line 0 (replicate MAX_ARGS None)
      (Mem (chars "  ls   -a  " ++ NUL :: []) None)
    = Ok (n, args', m')
    ∧ ∀ i, i < n →
           ∃ q w, args' !! i = Some (Some q) ∧ cstring_at (m_buf m') q = Ok w ∧ w ≠ [].
Proof.
  apply (parse_tokens_nonempty (chars "  ls   -a  ") [] (replicate MAX_ARGS None) None).
  - apply (bool_decide_unpack _). vm_compute. exact I.
  - reflexivity.
Defined.

(** ** Built-in commands *)

Section Builtins.
Context {os : OS}.

Lemma display_help_trace w :
  display_help w = World (w_mem w) (w_in w) (w_trace w ++ (EPrintf <$> help_text)).
Proof.
  unfold display_help, help_text, printf, emit. cbn [foldl w_mem w_in w_trace].
  by rewrite <- !app_assoc.
Qed.

Lemma execute_empty args w :
  args !! 0 = Some None → execute_command args w = Ok (Return (), w).
Proof. intros H. unfold execute_command. by rewrite H. Qed.

Lemma execute_exit args w p :
  args !! 0 = Some (Some p) →
  cstring_at (m_buf (w_mem w)) p = Ok (chars "exit") →
  execute_command args w
  = Ok (Exit 0%Z, printf ("Exiting simple_shell." +:+ nl) w).
Proof.
  intros H0 Hp. unfold execute_command. rewrite H0, bind_Ok, Hp, bind_Ok.
  by rewrite bool_decide_true by apply strcmp_refl.
Qed.

Lemma execute_help args w p :
  args !! 0 = Some (Some p) →
  cstring_at (m_buf (w_mem w)) p = Ok (chars "help") →
  execute_command args w = Ok (Return (), display_help w).
Proof.
  intros H0 Hp. unfold execute_command. rewrite H0, bind_Ok, Hp, bind_Ok.
  rewrite bool_decide_false by done.
  by rewrite bool_decide_true by apply strcmp_refl.
Qed.

End Builtins.

(** C4: when the first token is exactly "exit", [execute_command] prints
    the farewell line and ends the process with exit code 0; it does not
    return, and the other entries of the vector play no part. *)
Theorem exit_builtin_exits_zero (os : OS)
    (args : list (option nat)) (w : world) (p : nat) :
  args !! 0 = Some (Some p) →
  cstring_at (m_buf (w_mem w)) p = Ok (chars "exit") →
  @execute_command os args w
  = Ok (Exit 0%Z,
        World (w_mem w) (w_in w)
              (w_trace w ++ [EPrintf ("Exiting simple_shell." +:+ nl)])).
Proof. intros H0 Hp. by rewrite (execute_exit args w p). Qed.

Lemma exit_builtin_exits_zero_witness :
  let buf := chars "exit" ++ NUL :: chars "now" ++ [NUL] in
  let args := [Some 0; Some 5; None] in
  let w := World (Mem buf (Some 8)) (input_of "more" EndOfFile) [] in
  args !! 0 = Some (Some 0) ∧
  cstring_at (m_buf (w_mem w)) 0 = Ok (chars "exit") ∧
  @execute_command calm_os args w
  = Ok (Exit 0%Z,
        World (w_mem w) (w_in w)
              (w_trace w ++ [EPrintf ("Exiting simple_shell." +:+ nl)])).
Proof.
  split; [reflexivity|]. split; [reflexivity|].
  apply (exit_builtin_exits_zero calm_os
           [Some 0; Some 5; None]
           (World (Mem (chars "exit" ++ NUL :: chars "now" ++ [NUL]) (Some 8))
                  (input_of "more" EndOfFile) []) 0); reflexivity.
Defined.

(** C7: when the first token is exactly "help", [execute_command] prints
    the fixed help text, line by line, on standard output and returns to
    the loop; the result does not depend on the entries after the first,
    so "help foo" does what "help" does. *)
Theorem help_builtin_prints_help (os : OS)
    (args : list (option nat)) (w : world) (p : nat) :
  args !! 0 = Some (Some p) →
  cstring_at (m_buf (w_mem w)) p = Ok (chars "help") →
  @execute_command os args w
  = Ok (Return (),
        World (w_mem w) (w_in w) (w_trace w ++ (EPrintf <$> help_text))).
Proof.
  intros H0 Hp. by rewrite (execute_help args w p), display_help_trace.
Qed.

Lemma help_builtin_prints_help_witness :
  let buf := chars "help" ++ NUL :: chars "foo" ++ [NUL] in
  let args := [Some 0; Some 5; None] in
  let w := World (Mem buf (Some 8)) (input_of "" EndOfFile) [EFflush] in
  args !! 0 = Some (Some 0) ∧
  cstring_at (m_buf (w_mem w)) 0 = Ok (chars "help") ∧
  @execute_command calm_os args w
  = Ok (Return (),
        World (w_mem w) (w_in w) (w_trace w ++ (EPrintf <$> help_text))).
Proof.
  split; [reflexivity|]. split; [reflexivity|].
  apply (help_builtin_prints_help calm_os
           [Some 0; Some 5; None]
           (World (Mem (chars "help" ++ NUL :: chars "foo" ++ [NUL]) (Some 8))
                  (input_of "" EndOfFile) [EFflush]) 0); reflexivity.
Defined.

(** C6: a line that is empty or made of spaces only gives zero tokens,
    and [execute_command] on the vector it leaves returns at once: the
    state of the process is unchanged, so nothing is printed and no
    process is created. *)
Theorem blank_line_is_a_no_op
    (line rest : list ascii) (args : list (option nat)) (save : option nat) :
  Forall (eq SPACE) line →
  length args = MAX_ARGS →
  ∃ args' m',
    parse_command_line 0 args (Mem (line ++ NUL :: rest) save) = Ok (0, args', m')
    ∧ args' !! 0 = Some None
    ∧ ∀ (os : OS) (w : world), @execute_command os args' w = Ok (Return (), w).
Proof.
  intros Hsp Hargs.
  assert (NUL ∉ line) as Hn.
  { intros Hin. by rewrite Forall_forall in Hsp; apply Hsp in Hin. }
  destruct (parse_command_line_vector line rest args save Hn Hargs)
    as (args' & m' & Hrun & [Hnull Htok] & _).
  rewrite words_only_spaces in Hrun, Hnull by done.
  exists args', m'. split_and!; try done.
  intros os w. by apply execute_empty.
Qed.

Lemma blank_line_is_a_no_op_witness :
  ∃ args' m',
    parse_command_line 0 (replicate MAX_ARGS (Some 2))
      (Mem (chars "   " ++ NUL :: chars "old") None) = Ok (0, args', m')
    ∧ args' !! 0 = Some None
    ∧ ∀ (os : OS) (w : world), @execute_command os args' w = Ok (Return (), w).
Proof.
  apply (blank_line_is_a_no_op (chars "   ") (chars "old")
           (replicate MAX_ARGS (Some 2)) None).
  - apply (bool_decide_unpack _). vm_compute. exact I.
  - reflexivity.
Defined.


(** ** Reading a line *)

(** [fgets] with a size in the range of [int], above 1. *)
Ltac fgets_open :=
  unfold fgets; rewrite bool_decide_false by lia;
  match goal with
  | |- context [Z.to_nat (Z.of_nat ?n - 1)] =>
      replace (Z.to_nat (Z.of_nat n - 1)) with (n - 1) by lia
  end.

Section ReadFacts.
Implicit Types (buf pending got rest line more : list ascii) (w : world).

Lemma int_of_size_t_small n :
  (Z.of_nat n ≤ INT_MAX)%Z → int_of_size_t n = Z.of_nat n.
Proof.
  unfold int_of_size_t, INT_MAX. intros Hn.
  rewrite Z.mod_small by lia.
  destruct (Z.ltb_spec (Z.of_nat n) 2147483648); [done|lia].
Qed.

Lemma fgets_scan_spec n : ∀ pending got rest stop,
  fgets_scan n pending = (got, rest, stop) →
  pending = got ++ rest ∧ length got ≤ n ∧
  (stop = StopFull → length got = n) ∧
  (stop = StopNewline → got ≠ []) ∧
  (stop = StopEnd → rest = []).
Proof.
  induction n as [|n IH]; intros pending got rest stop; cbn [fgets_scan].
  - intros [= <- <- <-]. by split_and!.
  - destruct pending as [|c pending].
    + intros [= <- <- <-]. split_and!; (done || simpl; lia).
    + case_bool_decide as Hc.
      * intros [= <- <- <-]. split_and!; (done || simpl; lia).
      * destruct (fgets_scan n pending) as [[got' rest'] stop'] eqn:E.
        intros [= <- <- <-].
        destruct (IH _ _ _ _ E) as (-> & Hlen & Hfull & Hnl & Hend).
        split_and!; try done; simpl; [lia|]. intros ?. f_equal. auto.
Qed.

Lemma fgets_scan_line n line more :
  NEWLINE ∉ line → length line < n →
  fgets_scan n (line ++ NEWLINE :: more) = (line ++ [NEWLINE], more, StopNewline).
Proof.
  revert n. induction line as [|c line IH]; intros n Hnl Hn.
  - destruct n; [simpl in Hn; lia|]. done.
  - destruct n; [simpl in Hn; lia|]. apply not_elem_of_cons in Hnl as [Hc Hnl].
    cbn [fgets_scan app]. rewrite bool_decide_false by done.
    rewrite IH by (done || simpl in Hn; lia). done.
Qed.

Lemma fgets_scan_full n pending :
  NEWLINE ∉ take n pending → n ≤ length pending →
  fgets_scan n pending = (take n pending, drop n pending, StopFull).
Proof.
  revert pending. induction n as [|n IH]; intros pending Hnl Hn; [done|].
  destruct pending as [|c pending]; [simpl in Hn; lia|].
  cbn [take] in Hnl. apply not_elem_of_cons in Hnl as [Hc Hnl].
  cbn [fgets_scan]. rewrite bool_decide_false by done.
  rewrite IH by (done || simpl in Hn; lia). done.
Qed.

Lemma fgets_scan_end n line :
  NEWLINE ∉ line → length line < n →
  fgets_scan n line = (line, [], StopEnd).
Proof.
  revert n. induction line as [|c line IH]; intros n Hnl Hn.
  - destruct n; [simpl in Hn; lia|]. done.
  - destruct n; [simpl in Hn; lia|]. apply not_elem_of_cons in Hnl as [Hc Hnl].
    cbn [fgets_scan]. rewrite bool_decide_false by done.
    rewrite IH by (done || simpl in Hn; lia). done.
Qed.

(** The scan meets the end of the stream only when the stream holds
    fewer bytes than asked for and no newline. *)
Lemma fgets_scan_stop n : ∀ pending got rest,
  fgets_scan n pending = (got, rest, StopEnd) →
  (NEWLINE ∉ pending) ∧ length pending < n ∧ got = pending.
Proof.
  induction n as [|n IH]; intros pending got rest; cbn [fgets_scan]; [done|].
  destruct pending as [|c pending].
  - intros [= <- <-]. split_and!; [apply not_elem_of_nil|simpl; lia|done].
  - case_bool_decide as Hc; [done|].
    destruct (fgets_scan n pending) as [[got' rest'] stop'] eqn:E.
    intros [= <- <- ->]. destruct (IH _ _ _ E) as (Hnl & Hlen & ->).
    split_and!; [|simpl; lia|done]. apply not_elem_of_cons. split; [congruence|done].
Qed.

Lemma strcspn_total mem reject :
  NUL ∈ mem → ∃ n, strcspn mem reject = Ok n ∧ n < length mem.
Proof.
  induction mem as [|c mem IH]; [by intros ?%elem_of_nil|].
  intros Hin. cbn [strcspn length].
  case_bool_decide as Hc; [exists 0; split; [done|lia]|].
  case_bool_decide; [exists 0; split; [done|lia]|].
  apply elem_of_cons in Hin as [?|Hin]; [done|].
  destruct (IH Hin) as (n & -> & Hn). exists (S n). split; [done|lia].
Qed.

Lemma write_bytes_start buf bs :
  length bs ≤ length buf →
  write_bytes buf 0 bs = Ok (bs ++ drop (length bs) buf).
Proof. intros H. unfold write_bytes. by rewrite bool_decide_true. Qed.

Lemma length_written buf bs :
  length bs ≤ length buf → length (bs ++ drop (length bs) buf) = length buf.
Proof. intros H. rewrite length_app, length_drop. lia. Qed.

(** [fgets] on a buffer of at least [n] bytes, [n > 1], in each of the
    three cases of the stream. *)
Lemma fgets_spec buf n st :
  1 < n → n ≤ length buf →
  ∃ r buf' st',
    fgets buf 0 (Z.of_nat n) st = Ok (r, buf', st')
    ∧ length buf' = length buf
    ∧ match stream_gives n st with
      | MeetsEndOfFile => r = None ∧ in_eof st' = true
      | MeetsReadError => r = None ∧ in_eof st' = in_eof st
      | ReadsLine =>
          r = Some 0 ∧ NUL ∈ buf' ∧
          length (in_pending st') < length (in_pending st) ∧
          in_end st' = in_end st
      end.
Proof.
  intros Hn Hbuf. destruct st as [pending e eof err]. fgets_open.
  unfold stream_gives. cbn [in_pending in_end in_eof in_err].
  destruct (fgets_scan (n - 1) pending) as [[got rest] stop] eqn:E.
  destruct (fgets_scan_spec _ _ _ _ _ E) as (Hp & Hlen & Hfull & Hnl & Hend).
  assert (∀ st', got ≠ [] → in_pending st' = rest → in_end st' = e →
    ∃ buf', (write_bytes buf 0 (got ++ [NUL]) ≫= λ buf', Ok (Some 0, buf', st'))
            = Ok (Some 0, buf', st') ∧
            length buf' = length buf ∧
            Some 0 = Some 0 ∧ NUL ∈ buf' ∧
            length (in_pending st') < length pending ∧ in_end st' = e) as Hgood.
  { intros st' Hne Hst' He.
    rewrite write_bytes_start by (rewrite length_app; simpl; lia).
    rewrite bind_Ok. eexists. split; [done|]. split_and!; try done.
    - apply length_written. rewrite length_app. simpl. lia.
    - rewrite elem_of_app. left. rewrite elem_of_app. right. by left.
    - rewrite Hst', Hp, length_app. destruct got; [done|simpl; lia]. }
  destruct stop.
  - rewrite bool_decide_false.
    2: { intros [Hnl' Hlt]. by rewrite fgets_scan_end in E. }
    destruct (Hgood (Stdin rest e eof err)) as (buf' & -> & ?); try done.
    { intros ->. specialize (Hfull eq_refl). simpl in Hfull. lia. }
    by eexists _, _, _.
  - rewrite bool_decide_false.
    2: { intros [Hnl' Hlt]. by rewrite fgets_scan_end in E. }
    destruct (Hgood (Stdin rest e eof err)) as (buf' & -> & ?); try done.
    { by apply Hnl. }
    by eexists _, _, _.
  - destruct (fgets_scan_stop _ _ _ _ E) as (Hnl' & Hlt & ->).
    rewrite bool_decide_true by done. destruct e.
    + destruct pending as [|c pending]; [by eexists _, _, _|].
      destruct (Hgood (Stdin rest EndOfFile true err)) as (buf' & -> & ?); try done.
      by eexists _, _, _.
    + rewrite write_bytes_start by lia. rewrite bind_Ok.
      eexists _, _, _. split; [done|]. split; [|done].
      apply length_written. lia.
Qed.

(** When [fgets] returns NULL, [read_command_line] returns -1 after
    the farewell or the diagnostic, as [feof] tells. *)
Lemma read_command_line_null w n buf' st' :
  fgets (m_buf (w_mem w)) 0 (int_of_size_t n) (w_in w) = Ok (None, buf', st') →
  read_command_line 0 n w
  = Ok ((-1)%Z,
        World (Mem buf' (m_save (w_mem w))) st'
              (w_trace w ++ [EPrintf "simple_shell> "; EFflush;
                             if in_eof st'
                             then EPrintf (nl +:+ "Exiting shell..." +:+ nl)
                             else EPerror "fgets error"])).
Proof.
  intros H. unfold read_command_line, printf, perror, emit, feof.
  cbn [w_mem w_in w_trace m_buf m_save]. rewrite H, bind_Ok.
  cbn [w_mem w_in w_trace m_buf m_save].
  destruct (in_eof st'); by rewrite <- !app_assoc.
Qed.

(** When [fgets] returns the buffer and the first newline or NUL of the
    buffer is at [k], [read_command_line] puts a NUL at [k] and
    returns 0. *)
Lemma read_command_line_cut w n buf1 st' k :
  fgets (m_buf (w_mem w)) 0 (int_of_size_t n) (w_in w) = Ok (Some 0, buf1, st') →
  strcspn buf1 [NEWLINE] = Ok k → k < length buf1 →
  read_command_line 0 n w
  = Ok (0%Z,
        World (Mem (<[k:=NUL]> buf1) (m_save (w_mem w))) st'
              (w_trace w ++ [EPrintf "simple_shell> "; EFflush])).
Proof.
  intros H Hk Hlt. unfold read_command_line, printf, perror, emit, feof.
  cbn [w_mem w_in w_trace m_buf m_save]. rewrite H, bind_Ok.
  cbn [w_mem w_in w_trace m_buf m_save]. rewrite drop_0, Hk, bind_Ok.
  unfold store. rewrite bool_decide_true by done.
  rewrite bind_Ok. by rewrite <- !app_assoc.
Qed.

(** [read_command_line] with a size above 1 and in the range of [int],
    on a buffer of at least that size: the status and the events follow
    the three cases of the stream; the call stays inside the buffer,
    and when it delivers a line the buffer holds a terminated string
    and the stream has become shorter. *)
Lemma read_command_line_spec w n :
  1 < n → (Z.of_nat n ≤ INT_MAX)%Z → n ≤ length (m_buf (w_mem w)) →
  ∃ w',
    read_command_line 0 n w = Ok (status_at (stream_gives n (w_in w)), w')
    ∧ w_trace w'
      = w_trace w ++ EPrintf "simple_shell> " :: EFflush :: last_words n (w_in w)
    ∧ m_save (w_mem w') = m_save (w_mem w)
    ∧ length (m_buf (w_mem w')) = length (m_buf (w_mem w))
    ∧ (stream_gives n (w_in w) = ReadsLine →
       NUL ∈ m_buf (w_mem w') ∧
       length (in_pending (w_in w')) < length (in_pending (w_in w)) ∧
       in_end (w_in w') = in_end (w_in w)).
Proof.
  intros Hn Hint Hbuf.
  destruct (fgets_spec (m_buf (w_mem w)) n (w_in w) Hn Hbuf)
    as (r & buf' & st' & Hfgets & Hlen & Hcase).
  rewrite <- (int_of_size_t_small n Hint) in Hfgets.
  unfold last_words. destruct (stream_gives n (w_in w)).
  - destruct Hcase as (-> & Hnul & Hless & Hend).
    destruct (strcspn_total buf' [NEWLINE] Hnul) as (k & Hk & Hlt).
    rewrite (read_command_line_cut _ _ _ _ _ Hfgets Hk Hlt).
    eexists. split; [done|]. cbn [w_trace w_mem w_in m_buf m_save].
    split_and!; try done; [by rewrite length_insert|].
    intros _. split_and!; try done. by apply list_elem_of_insert.
  - destruct Hcase as [-> Heof]. rewrite (read_command_line_null _ _ _ _ Hfgets).
    eexists. split; [done|]. cbn [w_trace w_mem w_in m_buf m_save].
    rewrite Heof. by split_and!.
  - destruct Hcase as [-> Heof]. rewrite (read_command_line_null _ _ _ _ Hfgets).
    eexists. split; [done|]. cbn [w_trace w_mem w_in m_buf m_save].
    rewrite Heof. by split_and!.
Qed.

(** A complete line that fits: the call delivers it and stops behind its
    newline. *)
Lemma read_line_spec w n line more :
  in_pending (w_in w) = line ++ NEWLINE :: more →
  NEWLINE ∉ line → NUL ∉ line →
  length line + 2 ≤ n → (Z.of_nat n ≤ INT_MAX)%Z →
  n ≤ length (m_buf (w_mem w)) →
  read_command_line 0 n w
  = Ok (0%Z,
        World (Mem (line ++ NUL :: NUL :: drop (length line + 2) (m_buf (w_mem w)))
                   (m_save (w_mem w)))
              (Stdin more (in_end (w_in w)) (in_eof (w_in w)) (in_err (w_in w)))
              (w_trace w ++ [EPrintf "simple_shell> "; EFflush])).
Proof.
  intros Hp Hnl Hnul Hn Hint Hbuf.
  destruct w as [[buf save] [pending e eof err] t].
  cbn [w_in w_mem w_trace in_pending in_end in_eof in_err m_buf m_save] in *.
  subst pending.
  set (buf1 := line ++ NEWLINE :: NUL :: drop (length line + 2) buf).
  rewrite (read_command_line_cut _ _ buf1 (Stdin more e eof err) (length line)).
  - cbn [w_mem w_in w_trace m_buf m_save in_pending].
    unfold buf1. by rewrite insert_app_r_alt, Nat.sub_diag by done.
  - rewrite int_of_size_t_small by done. fgets_open.
    cbn [w_in w_mem in_pending in_end in_eof in_err m_buf].
    rewrite fgets_scan_line by (done || lia).
    rewrite write_bytes_start by (rewrite !length_app; simpl; lia).
    rewrite bind_Ok. unfold buf1. do 3 f_equal.
    rewrite <- !app_assoc. cbn [app]. do 3 f_equal.
    rewrite !length_app; simpl; f_equal; lia.
  - unfold buf1. by apply strcspn_word; [| |right].
  - unfold buf1. rewrite length_app. simpl. lia.
Qed.

End ReadFacts.

(** C2, as the code has it: [read_command_line] returns 0 when the
    stream has a line for it, and -1 otherwise, at end-of-input as well
    as on a read error, also on one that comes behind bytes already
    read: the status is the same in the two cases.  What tells them
    apart is the message printed behind the prompt: the farewell when
    [feof] holds, the "fgets error" diagnostic when it does not. *)
Theorem read_status_and_message (w : world) (n : nat) :
  1 < n → (Z.of_nat n ≤ INT_MAX)%Z → n ≤ length (m_buf (w_mem w)) →
  ∃ w',
    read_command_line 0 n w = Ok (status_at (stream_gives n (w_in w)), w')
    ∧ w_trace w'
      = w_trace w ++ EPrintf "simple_shell> " :: EFflush :: last_words n (w_in w).
Proof.
  intros Hn Hint Hbuf.
  destruct (read_command_line_spec w n Hn Hint Hbuf) as (w' & Hrun & Ht & _).
  by exists w'.
Qed.

Lemma read_status_and_message_witness :
  let w := World (Mem (replicate MAX_LINE_LENGTH "x"%char) None)
                 (input_of "ls" ReadError) [] in
  ∃ w',
    read_command_line 0 MAX_LINE_LENGTH w = Ok ((-1)%Z, w')
    ∧ w_trace w' = [EPrintf "simple_shell> "; EFflush; EPerror "fgets error"].
Proof.
  apply (read_status_and_message
           (World (Mem (replicate MAX_LINE_LENGTH "x"%char) None)
                  (input_of "ls" ReadError) []) MAX_LINE_LENGTH).
  - vm_compute. lia.
  - vm_compute. discriminate.
  - vm_compute. lia.
Defined.

(** C2, as stated, fails: on an exhausted stream and on a faulting
    stream the returned status is the same. *)
Lemma read_status_same_at_eof_and_error :
  let m := Mem (replicate MAX_LINE_LENGTH "x"%char) None in
  status_of (read_command_line 0 MAX_LINE_LENGTH (World m (input_of "" EndOfFile) []))
  = Some (-1)%Z ∧
  status_of (read_command_line 0 MAX_LINE_LENGTH (World m (input_of "" ReadError) []))
  = Some (-1)%Z.
Proof. vm_compute. split; reflexivity. Qed.

(** ** The loop *)

(** Goals of the form "no [fork] returned 0 among these events". *)
Ltac no_fork :=
  repeat match goal with
         | H : _ ∉ _ ++ _ |- _ => apply not_elem_of_app in H as [? ?]
         | H : _ ∉ _ :: _ |- _ => apply not_elem_of_cons in H as [? ?]
         end;
  repeat (rewrite not_elem_of_app || rewrite not_elem_of_cons);
  split_and?; try done; try apply not_elem_of_nil; try congruence.

Section LoopFacts.
Context {os : OS}.
Implicit Types (w : world) (args : list (option nat)) (t evs : list event).
Implicit Types (line more cmd : list ascii).

(** The two [strcmp] tests fail on a name that is neither built-in. *)
Lemma not_builtin_tests cmd :
  NUL ∉ cmd → cmd ≠ chars "exit" → cmd ≠ chars "help" →
  bool_decide (strcmp cmd (chars "exit") = 0%Z) = false ∧
  bool_decide (strcmp cmd (chars "help") = 0%Z) = false.
Proof.
  intros Hn Hexit Hhelp.
  split; apply bool_decide_eq_false_2; rewrite strcmp_eq; try done; compute_done.
Qed.

(** An external command in a process that is not the child of its
    [fork]: a failed [fork] is reported; after any other the process
    calls [waitpid] on the pid that [fork] returned, with no option,
    and goes on when, and only when, that call returns. *)
Lemma execute_external_parent args w p cmd :
  args !! 0 = Some (Some p) →
  cstring_at (m_buf (w_mem w)) p = Ok cmd →
  cmd ≠ chars "exit" → cmd ≠ chars "help" →
  os_fork (w_trace w) ≠ 0%Z →
  let pid := os_fork (w_trace w) in
  execute_command args w
  = if bool_decide (pid = (-1)%Z)
    then Ok (Return (),
             World (w_mem w) (w_in w) (w_trace w ++ [EFork pid; EPerror "fork error"]))
    else match os_waitpid (w_trace w ++ [EFork pid]) pid 0%Z with
         | None =>
             Ok (Blocked,
                 World (w_mem w) (w_in w)
                       (w_trace w ++ [EFork pid; EWaitpidBlocks pid 0%Z]))
         | Some r =>
             Ok (Return (),
                 World (w_mem w)
                       (shared_input (w_trace w ++ [EFork pid; EWaitpid pid 0%Z r])
                                     (w_in w))
                       (w_trace w ++ EFork pid :: EWaitpid pid 0%Z r ::
                          if bool_decide (r = (-1)%Z)
                          then [EPerror "waitpid error"] else []))
         end.
Proof.
  intros H0 Hp Hexit Hhelp Hchild pid.
  destruct (not_builtin_tests cmd (cstring_no_NUL _ _ Hp) Hexit Hhelp) as [E1 E2].
  unfold execute_command. rewrite H0, bind_Ok, Hp, bind_Ok, E1, E2. clear E1 E2.
  unfold perror, emit. cbn [w_mem w_in w_trace]. fold pid.
  case_bool_decide; [by rewrite <- !app_assoc|].
  rewrite bool_decide_false by done.
  destruct (os_waitpid _ _ _) as [r|]; [|by rewrite <- !app_assoc].
  cbn [w_mem w_in w_trace]. case_bool_decide; by rewrite <- !app_assoc.
Qed.

(** An external command in the child of the [fork]. *)
Lemma execute_external_child args w p cmd argv :
  args !! 0 = Some (Some p) →
  cstring_at (m_buf (w_mem w)) p = Ok cmd →
  argv_strings (m_buf (w_mem w)) args = Ok argv →
  cmd ≠ chars "exit" → cmd ≠ chars "help" →
  os_fork (w_trace w) = 0%Z →
  let loaded := os_execvp (w_trace w ++ [EFork 0%Z]) cmd argv in
  execute_command args w
  = Ok (if loaded then Exec else Exit EXIT_FAILURE,
        World (w_mem w) (w_in w)
          (w_trace w ++ EFork 0%Z :: EExecvp cmd argv loaded ::
             if loaded then [] else [EPerror "execvp error"])).
Proof.
  intros H0 Hp Hargv Hexit Hhelp Hchild loaded.
  destruct (not_builtin_tests cmd (cstring_no_NUL _ _ Hp) Hexit Hhelp) as [E1 E2].
  unfold execute_command. rewrite H0, bind_Ok, Hp, bind_Ok, E1, E2. clear E1 E2.
  unfold perror, emit. cbn [w_mem w_in w_trace]. rewrite Hchild.
  rewrite bool_decide_false by done. rewrite bool_decide_true by done.
  rewrite Hargv, bind_Ok. fold loaded. destruct loaded; by rewrite <- !app_assoc.
Qed.

Lemma no_fork_in_printfs (texts : list string) pid : EFork pid ∉ (EPrintf <$> texts).
Proof. intros (text & ? & _)%list_elem_of_fmap. done. Qed.

(** How [execute_command] ends on a vector that [parse_command_line]
    left, the events it adds, and what it leaves of the input. *)
Lemma execute_command_outcome args ws w :
  holds_tokens (m_buf (w_mem w)) args ws →
  argv_strings (m_buf (w_mem w)) args = Ok ws →
  ∃ c st evs,
    execute_command args w = Ok (c, World (w_mem w) st (w_trace w ++ evs))
    ∧ (st = w_in w ∨ ∃ t, st = shared_input t (w_in w))
    ∧ match c with
      | Return _ => EFork 0%Z ∉ evs
      | Exit code =>
          (code = 0%Z ∧ evs = [EPrintf ("Exiting simple_shell." +:+ nl)])
          ∨ (code = EXIT_FAILURE ∧ os_fork (w_trace w) = 0%Z ∧
             ∃ cmd argv, evs = [EFork 0%Z; EExecvp cmd argv false; EPerror "execvp error"])
      | Exec =>
          os_fork (w_trace w) = 0%Z ∧
          ∃ cmd argv, evs = [EFork 0%Z; EExecvp cmd argv true]
      | Blocked =>
          ∃ pid, evs = [EFork pid; EWaitpidBlocks pid 0%Z]
                 ∧ pid ≠ (-1)%Z ∧ pid ≠ 0%Z
      end.
Proof.
  intros [Hnull Htok] Hargv. destruct ws as [|cmd ws].
  { exists (Return ()), (w_in w), []. rewrite app_nil_r, (execute_empty _ _ Hnull).
    destruct w. split_and!; [done|by left|apply not_elem_of_nil]. }
  destruct (Htok 0 cmd eq_refl) as (p & H0 & Hp). unfold points_to in Hp.
  destruct (decide (cmd = chars "exit")) as [->|Hexit].
  { exists (Exit 0%Z), (w_in w), [EPrintf ("Exiting simple_shell." +:+ nl)].
    rewrite (execute_exit args w p H0 Hp). split_and!; [done|by left|by left]. }
  destruct (decide (cmd = chars "help")) as [->|Hhelp].
  { exists (Return ()), (w_in w), (EPrintf <$> help_text).
    rewrite (execute_help args w p H0 Hp), display_help_trace.
    split_and!; [done|by left|apply no_fork_in_printfs]. }
  destruct (decide (os_fork (w_trace w) = 0%Z)) as [Hc|Hc].
  - rewrite (execute_external_child args w p cmd (cmd :: ws)) by done.
    destruct (os_execvp _ _ _); eexists _, _, _; (split; [done|]);
      (split; [by left|]).
    + split; [done|]. by exists cmd, (cmd :: ws).
    + right. split_and!; [done|done|]. by exists cmd, (cmd :: ws).
  - rewrite (execute_external_parent args w p cmd) by done.
    case_bool_decide as Hpid.
    { eexists (Return ()), _, _. split; [done|]. split; [by left|].
      rewrite !not_elem_of_cons.
      split_and!; try done; try apply not_elem_of_nil; congruence. }
    destruct (os_waitpid _ _ _) as [r|].
    + eexists (Return ()), _, _. split; [done|]. split; [right; by eexists|].
      case_bool_decide; rewrite !not_elem_of_cons;
        split_and!; try done; try apply not_elem_of_nil; congruence.
    + eexists Blocked, _, _. split; [done|]. split; [by left|]. by eexists.
Qed.

Lemma buffer_line (buf : list ascii) :
  NUL ∈ buf → ∃ line rest, buf = line ++ NUL :: rest ∧ NUL ∉ line.
Proof. apply list_elem_of_split_l. Qed.

(** One turn of the loop, whatever the stream holds: at the end of the
    stream [main] returns 0 behind the prompt and the message; on a line
    the turn goes to [execute_command] with the vector of that line. *)
Lemma main_loop_turn fuel args w :
  length (m_buf (w_mem w)) = MAX_LINE_LENGTH →
  length args = MAX_ARGS →
  match stream_gives MAX_LINE_LENGTH (w_in w) with
  | ReadsLine =>
      ∃ args' w2 ws,
        main_loop (S fuel) args w
        = (execute_command args' w2 ≫= λ '(c, w3),
             match c with
             | Return _ => main_loop fuel args' w3
             | Exit code => Ok (Exit code, w3)
             | Exec => Ok (Exec, w3)
             | Blocked => Ok (Blocked, w3)
             end)
        ∧ holds_tokens (m_buf (w_mem w2)) args' ws
        ∧ argv_strings (m_buf (w_mem w2)) args' = Ok ws
        ∧ length args' = MAX_ARGS
        ∧ length (m_buf (w_mem w2)) = MAX_LINE_LENGTH
        ∧ length (in_pending (w_in w2)) < length (in_pending (w_in w))
        ∧ w_trace w2 = w_trace w ++ [EPrintf "simple_shell> "; EFflush]
  | MeetsEndOfFile | MeetsReadError =>
      ∃ w',
        main_loop (S fuel) args w = Ok (Return 0%Z, w')
        ∧ w_trace w'
          = w_trace w ++ EPrintf "simple_shell> " :: EFflush ::
                         last_words MAX_LINE_LENGTH (w_in w)
  end.
Proof.
  intros Hbuf Hargs.
  destruct (read_command_line_spec w MAX_LINE_LENGTH)
    as (w1 & Hread & Ht & Hsave & Hlen & Hline);
    [unfold MAX_LINE_LENGTH; lia|compute_done|lia|].
  cbn [main_loop]. rewrite Hread, bind_Ok.
  unfold last_words in *.
  destruct (stream_gives MAX_LINE_LENGTH (w_in w)); cbn [status_at];
    [|(rewrite bool_decide_true by done; by exists w1)..].
  rewrite bool_decide_false by done.
  destruct Hline as (Hnul & Hless & _); [done|].
  destruct (buffer_line _ Hnul) as (line & rest & Ebuf & Hline).
  destruct w1 as [[b1 s1] st1 t1]. cbn [w_mem w_in w_trace m_buf m_save] in *.
  subst b1.
  destruct (parse_command_line_vector line rest args s1 Hline Hargs)
    as (args' & m' & -> & Htok & Hargv & Hargs' & Hlen' & _).
  rewrite bind_Ok.
  exists args', (World m' st1 t1), (take (MAX_ARGS - 1) (words line)).
  split; [done|]. cbn [w_mem w_in w_trace]. split_and!; try done.
  congruence.
Qed.

(** One turn of the loop on a complete line of the input, up to the
    call of [execute_command]. *)
Lemma main_loop_line fuel args w line more :
  in_pending (w_in w) = line ++ NEWLINE :: more →
  NEWLINE ∉ line → NUL ∉ line →
  length line + 2 ≤ MAX_LINE_LENGTH →
  length (m_buf (w_mem w)) = MAX_LINE_LENGTH →
  length args = MAX_ARGS →
  ∃ args' w2,
    main_loop (S fuel) args w
    = (execute_command args' w2 ≫= λ '(c, w3),
         match c with
         | Return _ => main_loop fuel args' w3
         | Exit code => Ok (Exit code, w3)
         | Exec => Ok (Exec, w3)
         | Blocked => Ok (Blocked, w3)
         end)
    ∧ holds_tokens (m_buf (w_mem w2)) args' (take (MAX_ARGS - 1) (words line))
    ∧ length args' = MAX_ARGS
    ∧ length (m_buf (w_mem w2)) = MAX_LINE_LENGTH
    ∧ w_in w2 = Stdin more (in_end (w_in w)) (in_eof (w_in w)) (in_err (w_in w))
    ∧ argv_strings (m_buf (w_mem w2)) args' = Ok (take (MAX_ARGS - 1) (words line))
    ∧ w_trace w2 = w_trace w ++ [EPrintf "simple_shell> "; EFflush].
Proof.
  intros Hp Hnl Hnul Hfit Hbuf Hargs.
  cbn [main_loop].
  rewrite (read_line_spec w MAX_LINE_LENGTH line more)
    by (done || compute_done || lia).
  rewrite bind_Ok. rewrite bool_decide_false by done.
  cbn [w_mem w_in w_trace].
  destruct (parse_command_line_vector line
              (NUL :: drop (length line + 2) (m_buf (w_mem w))) args
              (m_save (w_mem w)) Hnul Hargs)
    as (args' & m' & -> & Htok & Hargv & Hargs' & Hlen & _).
  rewrite bind_Ok.
  eexists args', (World m' _ _). split; [done|].
  cbn [w_mem w_in w_trace in_pending]. split_and!; try done.
  rewrite Hlen, length_app. cbn [length]. rewrite length_drop. lia.
Qed.


(** How a run of the loop stops, if it stops: the events [evs] it adds
    and the way it ends.  A run never leaves the defined behaviour of
    the C program. *)
Lemma main_loop_stops fuel : ∀ args w,
  length (m_buf (w_mem w)) = MAX_LINE_LENGTH →
  length args = MAX_ARGS →
  main_loop fuel args w = OutOfFuel ∨
  ∃ o w' evs,
    main_loop fuel args w = Ok (o, w')
    ∧ w_trace w' = w_trace w ++ evs
    ∧ match o with
      | Return c =>
          c = 0%Z ∧ (EFork 0%Z ∉ evs) ∧
          ∃ t0 e, evs = t0 ++ [EPrintf "simple_shell> "; EFflush; e]
                  ∧ (e = end_message EndOfFile ∨ e = end_message ReadError)
      | Exit c =>
          (c = 0%Z ∧ (EFork 0%Z ∉ evs) ∧
           ∃ t0, evs = t0 ++ [EPrintf ("Exiting simple_shell." +:+ nl)])
          ∨ (c = EXIT_FAILURE ∧
             ∃ t0 cmd argv,
               evs = t0 ++ [EFork 0%Z; EExecvp cmd argv false; EPerror "execvp error"]
               ∧ (EFork 0%Z ∉ t0) ∧ os_fork (w_trace w ++ t0) = 0%Z)
      | Exec =>
          ∃ t0 cmd argv,
            evs = t0 ++ [EFork 0%Z; EExecvp cmd argv true]
            ∧ (EFork 0%Z ∉ t0) ∧ os_fork (w_trace w ++ t0) = 0%Z
      | Blocked =>
          (EFork 0%Z ∉ evs) ∧
          ∃ t0 pid, evs = t0 ++ [EFork pid; EWaitpidBlocks pid 0%Z]
                    ∧ pid ≠ (-1)%Z ∧ pid ≠ 0%Z
      end.
Proof.
  induction fuel as [|fuel IH]; intros args w Hbuf Hargs; [by left|].
  pose proof (main_loop_turn fuel args w Hbuf Hargs) as Hturn.
  unfold last_words in Hturn.
  destruct (stream_gives MAX_LINE_LENGTH (w_in w)).
  - destruct Hturn as (args' & w2 & ws & -> & Htok & Hargv & Hargs' & Hbuf2 & _ & Ht2).
    destruct (execute_command_outcome args' ws w2 Htok Hargv)
      as (c & st & evs & -> & _ & Hc).
    rewrite bind_Ok, Ht2, <- app_assoc.
    assert (EFork 0%Z ∉ [EPrintf "simple_shell> "; EFflush]) as Hturn by no_fork.
    set (turn := [EPrintf "simple_shell> "; EFflush]) in *.
    destruct c as [[]|code| |].
    + destruct (IH args' (World (w_mem w2) st (w_trace w ++ turn ++ evs)))
        as [HO|(o & w' & evs' & Hrun & Ht' & Ho)]; [done|done|by left|].
      right. exists o, w', (turn ++ evs ++ evs'). split; [done|].
      cbn [w_trace] in Ht', Ho. split; [by rewrite Ht', <- !app_assoc|].
      destruct o as [c|c| |].
      * destruct Ho as (-> & Hno & t0 & e & -> & He). split; [done|].
        split; [no_fork|]. exists (turn ++ evs ++ t0), e.
        split; [by rewrite <- !app_assoc|done].
      * destruct Ho as [(-> & Hno & t0 & ->)|(-> & t0 & cmd & argv & -> & Hno & Hfork)].
        -- left. split; [done|]. split; [no_fork|]. exists (turn ++ evs ++ t0).
           by rewrite <- !app_assoc.
        -- right. split; [done|]. exists (turn ++ evs ++ t0), cmd, argv.
           split_and!; [by rewrite <- !app_assoc|no_fork|].
           by rewrite <- Hfork, <- !app_assoc.
      * destruct Ho as (t0 & cmd & argv & -> & Hno & Hfork).
        exists (turn ++ evs ++ t0), cmd, argv.
        split_and!; [by rewrite <- !app_assoc|no_fork|].
        by rewrite <- Hfork, <- !app_assoc.
      * destruct Ho as (Hno & t0 & pid & -> & Hpid). split; [no_fork|].
        exists (turn ++ evs ++ t0), pid. split; [by rewrite <- !app_assoc|done].
    + right. eexists _, _, (turn ++ evs). split; [done|]. split; [done|].
      destruct Hc as [[-> ->]|(-> & Hfork & cmd & argv & ->)].
      * left. split; [done|]. split; [no_fork|]. by exists turn.
      * right. split; [done|]. exists turn, cmd, argv.
        split_and!; [done|done|by rewrite <- Ht2].
    + right. eexists _, _, (turn ++ evs). split; [done|]. split; [done|].
      destruct Hc as (Hfork & cmd & argv & ->). exists turn, cmd, argv.
      split_and!; [done|done|by rewrite <- Ht2].
    + right. eexists _, _, (turn ++ evs). split; [done|]. split; [done|].
      destruct Hc as (pid & -> & Hpid1 & Hpid0). split; [no_fork|].
      by exists turn, pid.
  - destruct Hturn as (w' & -> & Ht). right. eexists _, w', _.
    split; [done|]. split; [done|]. split; [done|]. split; [no_fork|].
    eexists [], _. split; [done|]. by left.
  - destruct Hturn as (w' & -> & Ht). right. eexists _, w', _.
    split; [done|]. split; [done|]. split; [done|].
    split; [destruct (in_eof (w_in w)); no_fork|].
    eexists [], _. split; [done|]. destruct (in_eof (w_in w)); [by left|by right].
Qed.

(** When no child makes the input longer, as many turns as the input
    has bytes, and one more, bring the loop to its end. *)
Lemma main_loop_enough_fuel fuel : ∀ args w,
  (∀ t st, length (in_pending (os_input_after t st)) ≤ length (in_pending st)) →
  length (in_pending (w_in w)) < fuel →
  length (m_buf (w_mem w)) = MAX_LINE_LENGTH →
  length args = MAX_ARGS →
  main_loop fuel args w ≠ OutOfFuel.
Proof.
  induction fuel as [|fuel IH]; intros args w Hos Hfuel Hbuf Hargs; [lia|].
  pose proof (main_loop_turn fuel args w Hbuf Hargs) as Hturn.
  destruct (stream_gives MAX_LINE_LENGTH (w_in w));
    [|by destruct Hturn as (w' & -> & _)..].
  destruct Hturn as (args' & w2 & ws & -> & Htok & Hargv & Hargs' & Hbuf2 & Hless & _).
  destruct (execute_command_outcome args' ws w2 Htok Hargv)
    as (c & st & evs & -> & Hst & _).
  rewrite bind_Ok. destruct c as [[]|code| |]; try done.
  apply IH; try done. cbn [w_in].
  destruct Hst as [->|[t ->]]; [lia|].
  unfold shared_input. destruct (in_eof (w_in w2)); [lia|].
  cbn [in_pending]. specialize (Hos t (w_in w2)). lia.
Qed.

End LoopFacts.

(** Without that condition the loop need not end: when every child
    moves the offset of the input back over its line, the shell runs
    that line for ever. *)
Lemma main_loop_replays fuel : ∀ args w,
  in_pending (w_in w) = chars "pwd" ++ [NEWLINE] →
  in_eof (w_in w) = false →
  length (m_buf (w_mem w)) = MAX_LINE_LENGTH →
  length args = MAX_ARGS →
  @main_loop replaying_os fuel args w = OutOfFuel.
Proof.
  induction fuel as [|fuel IH]; intros args w Hp Heof Hbuf Hargs; [done|].
  destruct (@main_loop_line replaying_os fuel args w (chars "pwd") [])
    as (args' & w2 & -> & [_ Htok] & Hargs' & Hbuf2 & Hin & _ & Ht);
    [done|compute_done|compute_done|compute_done|done|done|].
  destruct (Htok 0 (chars "pwd") eq_refl) as (q & Hq & Hpt).
  rewrite (@execute_external_parent replaying_os args' w2 q (chars "pwd"))
    by done.
  cbn [os_fork os_waitpid replaying_os]. rewrite bool_decide_false by done.
  rewrite bind_Ok. apply IH; cbn [w_mem w_in]; try done.
  - rewrite Hin. unfold shared_input. cbn [in_eof]. by rewrite Heof.
  - rewrite Hin. unfold shared_input. cbn [in_eof]. by rewrite Heof.
Qed.

Example main_never_ends_on_replay (fuel : nat) :
  @main replaying_os fuel (replicate MAX_LINE_LENGTH "x"%char)
    (replicate MAX_ARGS None) (input_of ("pwd" +:+ nl) EndOfFile)
  = OutOfFuel.
Proof. by apply main_loop_replays. Qed.

(** C8: the exit code of the shell process.  At the turn of the loop
    that meets the end of the stream, be it the end of the input or a
    read error, [main] prints the prompt and the message of the case and
    returns 0, whatever the operating system answers.  And in the shell
    process itself, where no [fork] returns 0, every run of the loop
    that ends does so in one of two ways: [main] returns 0 behind the
    message of the stream's end, or the [exit] built-in ends the process
    with code 0 behind its farewell.  No other exit code occurs there. *)
Theorem shell_exit_code_is_zero (os : OS) (fuel : nat)
    (args : list (option nat)) (w : world) :
  length (m_buf (w_mem w)) = MAX_LINE_LENGTH →
  length args = MAX_ARGS →
  (stream_gives MAX_LINE_LENGTH (w_in w) ≠ ReadsLine →
   ∃ w',
     @main_loop os (S fuel) args w = Ok (Return 0%Z, w')
     ∧ w_trace w'
       = w_trace w ++ EPrintf "simple_shell> " :: EFflush ::
                      last_words MAX_LINE_LENGTH (w_in w))
  ∧ ((∀ t, os_fork t ≠ 0%Z) →
     ∀ o w',
       @main_loop os fuel args w = Ok (o, w') →
       match o with
       | Return c =>
           c = 0%Z ∧
           ∃ t0 e, w_trace w' = t0 ++ [EPrintf "simple_shell> "; EFflush; e]
                   ∧ (e = end_message EndOfFile ∨ e = end_message ReadError)
       | Exit c =>
           c = 0%Z ∧
           ∃ t0, w_trace w' = t0 ++ [EPrintf ("Exiting simple_shell." +:+ nl)]
       | Exec => False
       | Blocked => True
       end).
Proof.
  intros Hbuf Hargs. split.
  - intros Hend. pose proof (main_loop_turn fuel args w Hbuf Hargs) as Hturn.
    by destruct (stream_gives MAX_LINE_LENGTH (w_in w)).
  - intros Hshell o w' Hrun.
    destruct (main_loop_stops fuel args w Hbuf Hargs)
      as [HO|(o' & w'' & evs & Hrun' & Ht & Ho)]; [congruence|].
    rewrite Hrun in Hrun'. injection Hrun' as <- <-.
    destruct o as [c|c| |].
    + destruct Ho as (-> & _ & t0 & e & -> & He). split; [done|].
      exists (w_trace w ++ t0), e. by rewrite Ht, <- app_assoc.
    + destruct Ho as [(-> & _ & t0 & ->)|(_ & t0 & _ & _ & _ & _ & Hfork)];
        [|by apply Hshell in Hfork].
      split; [done|]. exists (w_trace w ++ t0). by rewrite Ht, <- app_assoc.
    + destruct Ho as (t0 & _ & _ & _ & _ & Hfork). by apply Hshell in Hfork.
    + done.
Qed.

Lemma shell_exit_code_is_zero_witness :
  let w := World (Mem (replicate MAX_LINE_LENGTH "x"%char) None)
                 (input_of "ls" ReadError) [] in
  ∃ w',
    @main_loop calm_os (S 0) (replicate MAX_ARGS None) w = Ok (Return 0%Z, w')
    ∧ w_trace w' = [EPrintf "simple_shell> "; EFflush; EPerror "fgets error"].
Proof.
  apply (proj1 (shell_exit_code_is_zero calm_os 0 (replicate MAX_ARGS None)
                  (World (Mem (replicate MAX_LINE_LENGTH "x"%char) None)
                         (input_of "ls" ReadError) [])
                  eq_refl eq_refl)).
  vm_compute. discriminate.
Defined.




(** * Further properties of the code *)

(** ** read_command_line: the lines it delivers *)

(** X1: a line of the input that ends in a newline and fits the buffer is
    delivered without its newline: for a [buffer_size] in the range of
    [int], the call returns 0, the buffer holds the characters of the
    line as a C string, and the stream is left right behind the
    newline. *)
Theorem read_line_strips_newline (w : world) (n : nat) (line more : list ascii) :
  in_pending (w_in w) = line ++ NEWLINE :: more →
  NEWLINE ∉ line → NUL ∉ line →
  length line + 2 ≤ n → (Z.of_nat n ≤ INT_MAX)%Z →
  n ≤ length (m_buf (w_mem w)) →
  ∃ w',
    read_command_line 0 n w = Ok (0%Z, w')
    ∧ cstring_at (m_buf (w_mem w')) 0 = Ok line
    ∧ m_buf (w_mem w')
      = line ++ NUL :: NUL :: drop (length line + 2) (m_buf (w_mem w))
    ∧ in_pending (w_in w') = more
    ∧ w_trace w' = w_trace w ++ [EPrintf "simple_shell> "; EFflush].
Proof.
  intros Hp Hnl Hnul Hn Hint Hbuf.
  rewrite (read_line_spec w n line more) by done.
  eexists. split; [done|]. cbn [w_mem w_in w_trace m_buf in_pending].
  split_and!; try done.
  unfold cstring_at. rewrite drop_0. by apply cstring_word.
Qed.

Lemma read_line_strips_newline_witness :
  let w := World (Mem (replicate MAX_LINE_LENGTH "x"%char) (Some 3))
                 (input_of ("ls -l" +:+ nl +:+ "pwd" +:+ nl) EndOfFile) [] in
  ∃ w',
    read_command_line 0 MAX_LINE_LENGTH w = Ok (0%Z, w')
    ∧ cstring_at (m_buf (w_mem w')) 0 = Ok (chars "ls -l")
    ∧ m_buf (w_mem w')
      = chars "ls -l" ++ NUL :: NUL :: drop (length (chars "ls -l") + 2) (m_buf (w_mem w))
    ∧ in_pending (w_in w') = chars ("pwd" +:+ nl)
    ∧ w_trace w' = w_trace w ++ [EPrintf "simple_shell> "; EFflush].
Proof.
  apply (read_line_strips_newline
           (World (Mem (replicate MAX_LINE_LENGTH "x"%char) (Some 3))
                  (input_of ("ls -l" +:+ nl +:+ "pwd" +:+ nl) EndOfFile) [])
           MAX_LINE_LENGTH (chars "ls -l") (chars ("pwd" +:+ nl))).
  - reflexivity.
  - apply (bool_decide_unpack _). vm_compute. exact I.
  - apply (bool_decide_unpack _). vm_compute. exact I.
  - vm_compute. lia.
  - vm_compute. discriminate.
  - vm_compute. lia.
Defined.

(** X2: a line longer than the buffer is cut, not rejected: for a
    [buffer_size] [n] in the range of [int], when the first [n - 1]
    bytes of the input hold no newline and no NUL, the call returns 0
    with exactly these bytes as the line, and the bytes behind them stay
    in the stream, where the next call finds them. *)
Theorem read_line_truncates (w : world) (n : nat) :
  1 < n → (Z.of_nat n ≤ INT_MAX)%Z → n ≤ length (m_buf (w_mem w)) →
  n - 1 ≤ length (in_pending (w_in w)) →
  NEWLINE ∉ take (n - 1) (in_pending (w_in w)) →
  NUL ∉ take (n - 1) (in_pending (w_in w)) →
  ∃ w',
    read_command_line 0 n w = Ok (0%Z, w')
    ∧ cstring_at (m_buf (w_mem w')) 0 = Ok (take (n - 1) (in_pending (w_in w)))
    ∧ in_pending (w_in w') = drop (n - 1) (in_pending (w_in w))
    ∧ length (m_buf (w_mem w')) = length (m_buf (w_mem w)).
Proof.
  intros Hn Hint Hbuf Hlong Hnl Hnul.
  destruct w as [[buf save] [pending e eof err] t].
  cbn [w_in w_mem in_pending m_buf] in *.
  set (got := take (n - 1) pending) in *.
  assert (length got = n - 1) as Hgot by (unfold got; by rewrite length_take_le).
  set (buf1 := got ++ NUL :: drop n buf).
  assert (length buf1 = length buf) as Hlen.
  { unfold buf1. rewrite length_app. simpl. rewrite length_drop. lia. }
  rewrite (read_command_line_cut _ _ buf1 (Stdin (drop (n - 1) pending) e eof err)
             (length got)).
  - eexists. split; [done|]. cbn [w_mem w_in w_trace m_buf in_pending].
    unfold buf1. rewrite insert_app_r_alt, Nat.sub_diag by done. cbn [insert list_insert].
    split_and!; try done.
    unfold cstring_at. rewrite drop_0. by apply cstring_word.
  - rewrite int_of_size_t_small by done. fgets_open.
    cbn [w_in w_mem in_pending in_end in_eof in_err m_buf].
    rewrite fgets_scan_full by done. fold got.
    rewrite write_bytes_start by (rewrite length_app; simpl; lia).
    rewrite bind_Ok. unfold buf1. do 3 f_equal.
    rewrite <- app_assoc. cbn [app]. do 3 f_equal.
    rewrite length_app; simpl; lia.
  - unfold buf1. by apply strcspn_word; [| |left].
  - rewrite Hlen. lia.
Qed.

Lemma read_line_truncates_witness :
  let w := World (Mem (replicate 8 "x"%char) None)
                 (input_of ("echo hello world" +:+ nl) EndOfFile) [] in
  ∃ w',
    read_command_line 0 8 w = Ok (0%Z, w')
    ∧ cstring_at (m_buf (w_mem w')) 0 = Ok (take (8 - 1) (in_pending (w_in w)))
    ∧ in_pending (w_in w') = drop (8 - 1) (in_pending (w_in w))
    ∧ length (m_buf (w_mem w')) = length (m_buf (w_mem w)).
Proof.
  apply (read_line_truncates
           (World (Mem (replicate 8 "x"%char) None)
                  (input_of ("echo hello world" +:+ nl) EndOfFile) []) 8).
  - lia.
  - vm_compute. discriminate.
  - vm_compute. lia.
  - vm_compute. lia.
  - apply (bool_decide_unpack _). vm_compute. exact I.
  - apply (bool_decide_unpack _). vm_compute. exact I.
Defined.

(** X3: a last line that the input ends without a newline is still
    delivered: for a [buffer_size] in the range of [int], at end-of-file
    with bytes read, the call returns 0 with these bytes as the line,
    and the end-of-file indicator is set. *)
Theorem read_last_line_without_newline (w : world) (n : nat) (line : list ascii) :
  in_pending (w_in w) = line → in_end (w_in w) = EndOfFile →
  line ≠ [] → NEWLINE ∉ line → NUL ∉ line →
  length line + 2 ≤ n → (Z.of_nat n ≤ INT_MAX)%Z →
  n ≤ length (m_buf (w_mem w)) →
  ∃ w',
    read_command_line 0 n w = Ok (0%Z, w')
    ∧ cstring_at (m_buf (w_mem w')) 0 = Ok line
    ∧ in_pending (w_in w') = []
    ∧ feof (w_in w') = true.
Proof.
  intros Hp He Hne Hnl Hnul Hn Hint Hbuf.
  destruct w as [[buf save] [pending e eof err] t].
  cbn [w_in w_mem in_pending in_end m_buf] in *. subst pending e.
  set (buf1 := line ++ NUL :: drop (length line + 1) buf).
  rewrite (read_command_line_cut _ _ buf1 (Stdin [] EndOfFile true err) (length line)).
  - eexists. split; [done|]. cbn [w_mem w_in w_trace m_buf in_pending].
    unfold buf1. rewrite insert_app_r_alt, Nat.sub_diag by done. cbn [insert list_insert].
    split_and!; try done.
    unfold cstring_at. rewrite drop_0. by apply cstring_word.
  - rewrite int_of_size_t_small by done. fgets_open.
    cbn [w_in w_mem in_pending in_end in_eof in_err m_buf].
    rewrite fgets_scan_end by (done || lia).
    destruct line as [|c line]; [done|].
    rewrite write_bytes_start by (rewrite !length_app; simpl in *; lia).
    rewrite bind_Ok. unfold buf1. do 3 f_equal.
    rewrite <- !app_assoc. cbn [app]. do 3 f_equal.
    f_equal. simpl. rewrite length_app. simpl. lia.
  - unfold buf1. by apply strcspn_word; [| |left].
  - unfold buf1. rewrite length_app. simpl. lia.
Qed.

Lemma read_last_line_without_newline_witness :
  let w := World (Mem (replicate MAX_LINE_LENGTH "x"%char) None)
                 (input_of "pwd" EndOfFile) [] in
  ∃ w',
    read_command_line 0 MAX_LINE_LENGTH w = Ok (0%Z, w')
    ∧ cstring_at (m_buf (w_mem w')) 0 = Ok (chars "pwd")
    ∧ in_pending (w_in w') = []
    ∧ feof (w_in w') = true.
Proof.
  apply (read_last_line_without_newline
           (World (Mem (replicate MAX_LINE_LENGTH "x"%char) None)
                  (input_of "pwd" EndOfFile) []) MAX_LINE_LENGTH (chars "pwd")).
  - reflexivity.
  - reflexivity.
  - discriminate.
  - apply (bool_decide_unpack _). vm_compute. exact I.
  - apply (bool_decide_unpack _). vm_compute. exact I.
  - vm_compute. lia.
  - vm_compute. discriminate.
  - vm_compute. lia.
Defined.

(** X4: for a [buffer_size] above 1 and in the range of [int],
    [read_command_line] stays inside a buffer of at least [buffer_size]
    bytes, whatever the input is.  It prints the prompt and flushes
    before anything else, returns 0 or -1, and leaves [strtok]'s pointer
    and the size of the buffer alone.  When it returns 0 nothing more is
    printed, the buffer holds a terminated string and at least one byte
    of the input was used up; when it returns -1 one message follows the
    prompt, the farewell or the diagnostic. *)
Theorem read_command_line_safe (w : world) (n : nat) :
  1 < n → (Z.of_nat n ≤ INT_MAX)%Z → n ≤ length (m_buf (w_mem w)) →
  ∃ r w' evs,
    read_command_line 0 n w = Ok (r, w')
    ∧ w_trace w' = w_trace w ++ EPrintf "simple_shell> " :: EFflush :: evs
    ∧ m_save (w_mem w') = m_save (w_mem w)
    ∧ length (m_buf (w_mem w')) = length (m_buf (w_mem w))
    ∧ ((r = 0%Z ∧ evs = [] ∧ NUL ∈ m_buf (w_mem w') ∧
        length (in_pending (w_in w')) < length (in_pending (w_in w)))
       ∨ (r = (-1)%Z ∧
          (evs = [EPrintf (nl +:+ "Exiting shell..." +:+ nl)]
           ∨ evs = [EPerror "fgets error"]))).
Proof.
  intros Hn Hint Hbuf.
  destruct (read_command_line_spec w n Hn Hint Hbuf)
    as (w' & Hrun & Ht & Hsave & Hlen & Hline).
  eexists _, w', _. split; [done|]. split; [done|]. split; [done|]. split; [done|].
  unfold last_words. destruct (stream_gives n (w_in w)).
  - left. destruct Hline as (? & ? & _); done.
  - right. split; [done|]. by left.
  - right. split; [done|]. destruct (in_eof (w_in w)); [by left|by right].
Qed.

Lemma read_command_line_safe_witness :
  let w := World (Mem (replicate MAX_LINE_LENGTH "x"%char) (Some 9))
                 (input_of "ls" ReadError) [EFflush] in
  ∃ r w' evs,
    read_command_line 0 MAX_LINE_LENGTH w = Ok (r, w')
    ∧ w_trace w' = w_trace w ++ EPrintf "simple_shell> " :: EFflush :: evs
    ∧ m_save (w_mem w') = m_save (w_mem w)
    ∧ length (m_buf (w_mem w')) = length (m_buf (w_mem w))
    ∧ ((r = 0%Z ∧ evs = [] ∧ NUL ∈ m_buf (w_mem w') ∧
        length (in_pending (w_in w')) < length (in_pending (w_in w)))
       ∨ (r = (-1)%Z ∧
          (evs = [EPrintf (nl +:+ "Exiting shell..." +:+ nl)]
           ∨ evs = [EPerror "fgets error"]))).
Proof.
  apply (read_command_line_safe
           (World (Mem (replicate MAX_LINE_LENGTH "x"%char) (Some 9))
                  (input_of "ls" ReadError) [EFflush]) MAX_LINE_LENGTH).
  - vm_compute. lia.
  - vm_compute. discriminate.
  - vm_compute. lia.
Defined.

(** ** parse_command_line: what it does to the buffer and to the vector *)

Section ParseFrame.
Implicit Types (s line pre rest : list ascii) (args : list (option nat)).

Lemma cut_same s : Forall2 cut_byte s s.
Proof. apply Forall_Forall2_diag, Forall_forall. intros c _. by left. Qed.

Lemma cut_trans s1 s2 s3 :
  Forall2 cut_byte s1 s2 → Forall2 cut_byte s2 s3 → Forall2 cut_byte s1 s3.
Proof.
  apply Forall2_trans. unfold cut_byte. intros x y z [->|[-> ->]] [->|[E ->]]; auto.
Qed.

(** One call of [strtok] leaves the part of the line it scans as it
    was, but for the space behind the token. *)
Lemma strtok_cut pre s rest ptr save :
  NUL ∉ s →
  ptr = Some (length pre) ∨ (ptr = None ∧ save = Some (length pre)) →
  ∃ tok mid s',
    strtok ptr [SPACE] (Mem (pre ++ s ++ NUL :: rest) save)
    = Ok (tok, Mem ((pre ++ mid) ++ s' ++ NUL :: rest)
                   (Some (length (pre ++ mid))))
    ∧ (NUL ∉ s') ∧ Forall2 cut_byte s (mid ++ s').
Proof.
  intros Hn Hptr.
  destruct (line_cases s) as [Hsp | (sp & w & s' & -> & Hsp & Hne & Hws & Hs')].
  - exists None, s, []. rewrite strtok_none by done. split_and!.
    + by rewrite <- !app_assoc.
    + apply not_elem_of_nil.
    + rewrite app_nil_r. apply cut_same.
  - apply not_elem_of_app in Hn as [_ Hn]. apply not_elem_of_app in Hn as [Hwn Hn].
    destruct Hs' as [-> | [s'' ->]].
    + exists (Some (length (pre ++ sp))), (sp ++ w), [].
      rewrite app_nil_r. rewrite <- !app_assoc.
      rewrite (strtok_word pre sp w NUL); [|done|done|done|done|by left|done].
      rewrite bool_decide_true by done. split_and!.
      * done.
      * apply not_elem_of_nil.
      * rewrite app_nil_r. apply cut_same.
    + exists (Some (length (pre ++ sp))), (sp ++ w ++ [NUL]), s''.
      rewrite <- !app_assoc. cbn [app].
      rewrite (strtok_word pre sp w SPACE); [|done|done|done|done|by right|done].
      rewrite bool_decide_false by done.
      apply not_elem_of_cons in Hn as [_ Hn]. split_and!.
      * do 4 f_equal. rewrite !length_app. simpl. lia.
      * done.
      * apply Forall2_app; [apply cut_same|]. apply Forall2_app; [apply cut_same|].
        constructor; [by right|apply cut_same].
Qed.

Lemma parse_loop_cut fuel : ∀ tok k args pre s rest r,
  NUL ∉ s →
  parse_loop fuel tok k args (Mem (pre ++ s ++ NUL :: rest) (Some (length pre)))
  = Ok r →
  ∃ s2, m_buf r.2 = pre ++ s2 ++ NUL :: rest ∧ Forall2 cut_byte s s2.
Proof.
  assert (∀ (k : nat) args pre s rest (r : nat * list (option nat) * mem),
    Ok (k, args, Mem (pre ++ s ++ NUL :: rest) (Some (length pre))) = Ok r →
    ∃ s2, m_buf r.2 = pre ++ s2 ++ NUL :: rest ∧ Forall2 cut_byte s s2) as Hstop.
  { intros k args pre s rest r [= <-]. exists s. split; [done|apply cut_same]. }
  induction fuel as [|fuel IH]; intros tok k args pre s rest r Hn;
    destruct tok as [q|]; cbn [parse_loop]; try (by apply Hstop);
    case_bool_decide; try (by apply Hstop); [done|].
  unfold store. case_bool_decide; [|done]. rewrite bind_Ok.
  destruct (strtok_cut pre s rest None (Some (length pre)) Hn)
    as (tok' & mid & s' & -> & Hn' & Hcut); [by right|].
  rewrite bind_Ok. intros Hrun.
  destruct (IH _ _ _ _ _ _ _ Hn' Hrun) as (s2 & -> & Hcut').
  exists (mid ++ s2). split; [by rewrite <- !app_assoc|].
  eapply cut_trans; [done|]. apply Forall2_app; [apply cut_same|done].
Qed.

Lemma parse_command_line_cut pre line rest args save r :
  NUL ∉ line →
  parse_command_line (length pre) args (Mem (pre ++ line ++ NUL :: rest) save) = Ok r →
  ∃ s2, m_buf r.2 = pre ++ s2 ++ NUL :: rest ∧ Forall2 cut_byte line s2.
Proof.
  intros Hn. unfold parse_command_line.
  destruct (strtok_cut pre line rest (Some (length pre)) save Hn)
    as (tok & mid & s' & -> & Hn' & Hcut); [by left|].
  rewrite bind_Ok.
  destruct (parse_loop MAX_ARGS tok 0 args _) as [[[n args1] m2]| |] eqn:Hloop;
    [|done|done].
  rewrite bind_Ok. destruct (store args1 n None) as [args2| |]; [|done|done].
  rewrite bind_Ok. intros [= <-]. cbn [snd].
  destruct (parse_loop_cut _ _ _ _ _ _ _ _ Hn' Hloop) as (s2 & E & Hcut').
  cbn [snd] in E. rewrite E.
  exists (mid ++ s2). split; [by rewrite <- !app_assoc|].
  eapply cut_trans; [done|]. apply Forall2_app; [apply cut_same|done].
Qed.

(** The bytes of a C string sit in memory one after the other, with a
    NUL behind them. *)
Lemma cstring_lookup mem w :
  cstring mem = Ok w →
  (∀ j c, w !! j = Some c → mem !! j = Some c) ∧ mem !! length w = Some NUL.
Proof.
  revert w. induction mem as [|x mem IH]; intros w; cbn [cstring]; [done|].
  case_bool_decide as Hx.
  - intros [= <-]. subst x. split; [by intros j c ?|done].
  - destruct (cstring mem) as [w'| |]; [|done|done]. rewrite bind_Ok.
    intros [= <-]. destruct (IH w' eq_refl) as [Hj Hend]. split; [|done].
    intros [|j] c; [done|]. apply Hj.
Qed.

End ParseFrame.

(** X5: tokenizing is destructive in one way only.  For every line,
    [parse_command_line] leaves the size of the buffer, the bytes behind
    the line's terminator and every byte of the line as they were, but
    for spaces of the line that it turns into NUL. *)
Theorem parse_only_cuts_spaces
    (line rest : list ascii) (args : list (option nat)) (save : option nat) :
  NUL ∉ line →
  length args = MAX_ARGS →
  ∃ n args' m' s2,
    parse_command_line 0 args (Mem (line ++ NUL :: rest) save) = Ok (n, args', m')
    ∧ m_buf m' = s2 ++ NUL :: rest
    ∧ Forall2 cut_byte line s2.
Proof.
  intros Hn Hargs.
  destruct (parse_command_line_vector line rest args save Hn Hargs)
    as (args' & m' & Hrun & _).
  destruct (parse_command_line_cut [] line rest args save _ Hn Hrun) as (s2 & E & Hcut).
  eexists _, args', m', s2. by split_and!.
Qed.

Lemma parse_only_cuts_spaces_witness :
  ∃ n args' m' s2,
    parse_command_line 0 (replicate MAX_ARGS None)
      (Mem (chars " cp  a b " ++ NUL :: chars "old") None) = Ok (n, args', m')
    ∧ m_buf m' = s2 ++ NUL :: chars "old"
    ∧ Forall2 cut_byte (chars " cp  a b ") s2.
Proof.
  apply (parse_only_cuts_spaces (chars " cp  a b ") (chars "old")
           (replicate MAX_ARGS None) None).
  - apply (bool_decide_unpack _). vm_compute. exact I.
  - reflexivity.
Defined.

(** X6: [parse_command_line] writes the slots 0 to [n] of the vector,
    [n] being the count it returns, and no other: [n] is below
    [MAX_ARGS], the vector keeps its size, and the slots behind the NULL
    keep what earlier commands left in them. *)
Theorem parse_leaves_later_slots
    (line rest : list ascii) (args : list (option nat)) (save : option nat) :
  NUL ∉ line →
  length args = MAX_ARGS →
  ∃ n args' m',
    parse_command_line 0 args (Mem (line ++ NUL :: rest) save) = Ok (n, args', m')
    ∧ n < MAX_ARGS
    ∧ length args' = length args
    ∧ ∀ i, n < i → args' !! i = args !! i.
Proof.
  intros Hn Hargs.
  destruct (parse_command_line_spec [] line rest args save Hn Hargs)
    as (ptrs & s2 & save' & Hrun & _ & Hptrs).
  cbn [length app] in Hrun. rewrite Hrun.
  pose proof (Forall2_length _ _ _ Hptrs) as Hl. rewrite length_take in Hl.
  eexists _, _, _. split; [done|]. split_and!.
  - unfold MAX_ARGS in *. lia.
  - rewrite length_app, length_fmap. cbn [length]. rewrite length_drop.
    unfold MAX_ARGS in *. lia.
  - intros i Hi. rewrite lookup_app_r by (rewrite length_fmap; lia).
    rewrite length_fmap. destruct (i - length ptrs) as [|j] eqn:Ej; [lia|].
    change ((None :: drop (S (length ptrs)) args) !! S j)
      with (drop (S (length ptrs)) args !! j).
    rewrite lookup_drop. f_equal. lia.
Qed.

Lemma parse_leaves_later_slots_witness :
  ∃ n args' m',
    parse_command_line 0 (replicate MAX_ARGS (Some 4))
      (Mem (chars "ls -l" ++ NUL :: chars "old") None) = Ok (n, args', m')
    ∧ n < MAX_ARGS
    ∧ length args' = length (replicate MAX_ARGS (Some 4))
    ∧ ∀ i, n < i → args' !! i = replicate MAX_ARGS (Some 4) !! i.
Proof.
  apply (parse_leaves_later_slots (chars "ls -l") (chars "old")
           (replicate MAX_ARGS (Some 4)) None).
  - apply (bool_decide_unpack _). vm_compute. exact I.
  - reflexivity.
Defined.

(** X7: the tokens are slices of the line.  Every pointer that
    [parse_command_line] stores points into the buffer at a place where
    the line, as it was before the call, holds the characters of the
    token, followed by a space or by the line's terminator. *)
Theorem parse_tokens_alias_the_line
    (line rest : list ascii) (args : list (option nat)) (save : option nat) :
  NUL ∉ line →
  length args = MAX_ARGS →
  ∃ n args' m',
    parse_command_line 0 args (Mem (line ++ NUL :: rest) save) = Ok (n, args', m')
    ∧ ∀ i q, i < n → args' !! i = Some (Some q) →
        ∃ w, cstring_at (m_buf m') q = Ok w
             ∧ (∀ j c, w !! j = Some c → (line ++ NUL :: rest) !! (q + j) = Some c)
             ∧ ((line ++ NUL :: rest) !! (q + length w) = Some SPACE
                ∨ (line ++ NUL :: rest) !! (q + length w) = Some NUL).
Proof.
  intros Hn Hargs.
  destruct (parse_command_line_vector line rest args save Hn Hargs)
    as (args' & m' & Hrun & [Hnull Htok] & _).
  destruct (parse_command_line_cut [] line rest args save _ Hn Hrun) as (s2 & E & Hcut).
  cbn [snd app] in E.
  assert (Forall2 cut_byte (line ++ NUL :: rest) (m_buf m')) as Hbuf.
  { rewrite E. apply Forall2_app; [done|apply cut_same]. }
  eexists _, args', m'. split; [done|].
  intros i q Hi Hq.
  destruct (lookup_lt_is_Some_2 _ _ Hi) as [w Hw].
  destruct (Htok i w Hw) as (q' & Hq' & Hp). rewrite Hq in Hq'. injection Hq' as <-.
  exists w. split; [done|]. unfold points_to, cstring_at in Hp.
  pose proof (cstring_no_NUL _ _ Hp) as Hnw.
  destruct (cstring_lookup _ _ Hp) as [Hj Hend].
  split.
  - intros j c Hc. specialize (Hj j c Hc). rewrite lookup_drop in Hj.
    destruct (Forall2_lookup_r _ _ _ _ _ Hbuf Hj) as (c0 & Hc0 & [->|[_ ->]]); [done|].
    destruct Hnw. by eapply list_elem_of_lookup_2.
  - rewrite lookup_drop in Hend.
    destruct (Forall2_lookup_r _ _ _ _ _ Hbuf Hend) as (c0 & Hc0 & [E0|[-> _]]); auto.
    right. by rewrite Hc0, E0.
Qed.

Lemma parse_tokens_alias_the_line_witness :
  ∃ n args' m',
    parse_command_line 0 (replicate MAX_ARGS None)
      (Mem (chars "  mv a  b" ++ NUL :: chars "zz") None) = Ok (n, args', m')
    ∧ ∀ i q, i < n → args' !! i = Some (Some q) →
        ∃ w, cstring_at (m_buf m') q = Ok w
             ∧ (∀ j c, w !! j = Some c →
                       (chars "  mv a  b" ++ NUL :: chars "zz") !! (q + j) = Some c)
             ∧ ((chars "  mv a  b" ++ NUL :: chars "zz") !! (q + length w) = Some SPACE
                ∨ (chars "  mv a  b" ++ NUL :: chars "zz") !! (q + length w) = Some NUL).
Proof.
  apply (parse_tokens_alias_the_line (chars "  mv a  b") (chars "zz")
           (replicate MAX_ARGS None) None).
  - apply (bool_decide_unpack _). vm_compute. exact I.
  - reflexivity.
Defined.

Lemma words_join_words (ws : list (list ascii)) :
  Forall (λ w, w ≠ [] ∧ SPACE ∉ w) ws → words (join_words ws) = ws.
Proof.
  induction 1 as [|w ws [Hne Hsp] Hws IH]; [done|].
  destruct ws as [|w' ws].
  - by apply words_word.
  - change (join_words (w :: w' :: ws)) with (w ++ SPACE :: join_words (w' :: ws)).
    rewrite words_word_space by done. by rewrite IH.
Qed.

Lemma join_words_no_NUL (ws : list (list ascii)) :
  Forall (λ w, NUL ∉ w) ws → NUL ∉ join_words ws.
Proof.
  induction 1 as [|w ws Hw Hws IH]; [apply not_elem_of_nil|].
  destruct ws as [|w' ws]; [done|].
  change (join_words (w :: w' :: ws)) with (w ++ SPACE :: join_words (w' :: ws)).
  rewrite elem_of_app, elem_of_cons. intros [?|[?|?]]; [done|done|by apply IH].
Qed.

(** X8: round trip.  At most 9 non-empty words without spaces, put on a
    line with single spaces between them, come back from
    [parse_command_line] as they were: the vector read up to its NULL
    gives exactly these words. *)
Theorem parse_join_round_trip (ws : list (list ascii)) :
  Forall (λ w, w ≠ [] ∧ (SPACE ∉ w) ∧ (NUL ∉ w)) ws →
  length ws ≤ MAX_ARGS - 1 →
  argv_strings_of (join_words ws) = Ok ws.
Proof.
  intros Hws Hlen. unfold argv_strings_of.
  destruct (parse_command_line_vector (join_words ws) [] (replicate MAX_ARGS None) None)
    as (args' & m' & Hrun & _ & Hargv & _).
  { apply join_words_no_NUL. eapply Forall_impl; [done|]. by intros w (_ & _ & ?). }
  { by rewrite length_replicate. }
  rewrite words_join_words in Hrun, Hargv
    by (eapply Forall_impl; [done|]; by intros w (? & ? & _)).
  rewrite Hrun, bind_Ok. cbn beta iota. rewrite Hargv. by rewrite take_ge.
Qed.

Lemma parse_join_round_trip_witness :
  argv_strings_of (join_words [chars "grep"; chars "-n"; chars "main"; chars "shell.c"])
  = Ok [chars "grep"; chars "-n"; chars "main"; chars "shell.c"].
Proof.
  apply (parse_join_round_trip [chars "grep"; chars "-n"; chars "main"; chars "shell.c"]).
  - apply (bool_decide_unpack _). vm_compute. exact I.
  - vm_compute. lia.
Defined.

(** ** execute_command: built-in or external *)

(** X9: the built-ins are matched by exact, case-sensitive equality of
    the whole first token.  [execute_command] calls [fork] exactly when
    the first token is neither "exit" nor "help": any other name, such
    as "Exit", "exits" or "hel", is an external command. *)
Theorem fork_iff_not_builtin (os : OS)
    (args : list (option nat)) (w : world) (p : nat) (cmd : list ascii)
    (argv : list (list ascii)) :
  args !! 0 = Some (Some p) →
  cstring_at (m_buf (w_mem w)) p = Ok cmd →
  argv_strings (m_buf (w_mem w)) args = Ok argv →
  (∃ c w' evs,
     @execute_command os args w = Ok (c, w')
     ∧ w_trace w' = w_trace w ++ EFork (os_fork (w_trace w)) :: evs)
  ↔ cmd ≠ chars "exit" ∧ cmd ≠ chars "help".
Proof.
  intros H0 Hp Hargv. split.
  - intros (c & w' & evs & Hrun & Ht). split; intros ->.
    + rewrite (execute_exit args w p H0 Hp) in Hrun. injection Hrun as <- <-.
      cbn [printf emit w_trace] in Ht. by apply app_inv_head in Ht.
    + rewrite (execute_help args w p H0 Hp), display_help_trace in Hrun.
      injection Hrun as <- <-. cbn [w_trace] in Ht. by apply app_inv_head in Ht.
  - intros [Hexit Hhelp]. destruct (decide (os_fork (w_trace w) = 0%Z)) as [Hc|Hc].
    + rewrite (execute_external_child args w p cmd argv) by done.
      eexists _, _, _. split; [done|]. cbn [w_trace]. by rewrite Hc.
    + rewrite (execute_external_parent args w p cmd) by done.
      case_bool_decide; [by eexists _, _, _|].
      destruct (os_waitpid _ _ _); by eexists _, _, _.
Qed.

Lemma fork_iff_not_builtin_witness :
  let w := World (Mem (chars "Exit" ++ [NUL]) None) (input_of "" EndOfFile) [] in
  (∃ c w' evs,
     @execute_command calm_os [Some 0; None] w = Ok (c, w')
     ∧ w_trace w' = w_trace w ++ EFork (@os_fork calm_os (w_trace w)) :: evs)
  ↔ chars "Exit" ≠ chars "exit" ∧ chars "Exit" ≠ chars "help".
Proof.
  apply (fork_iff_not_builtin calm_os [Some 0; None]
           (World (Mem (chars "Exit" ++ [NUL]) None) (input_of "" EndOfFile) [])
           0 (chars "Exit") [chars "Exit"]); reflexivity.
Defined.

(** X11: what the child does with a line.  In the child of the [fork]
    (where [fork] returns 0) the vector that [parse_command_line] made
    of a line whose first word is no built-in goes to [execvp]: the
    program is named by the first word and its arguments are the first
    [MAX_ARGS - 1] words of the line, the name included.  The child does
    not return to the loop: either [execvp] replaces the program, or
    the child prints "execvp error" and exits with [EXIT_FAILURE]. *)
Theorem child_execs_the_words (os : OS)
    (line rest : list ascii) (args : list (option nat)) (save : option nat)
    (st : stdin_state) (t : list event) (cmd : list ascii) (ws : list (list ascii)) :
  NUL ∉ line →
  length args = MAX_ARGS →
  words line = cmd :: ws →
  cmd ≠ chars "exit" → cmd ≠ chars "help" →
  os_fork t = 0%Z →
  ∃ n args' m',
    parse_command_line 0 args (Mem (line ++ NUL :: rest) save) = Ok (n, args', m')
    ∧ let argv := take (MAX_ARGS - 1) (cmd :: ws) in
      let loaded := os_execvp (t ++ [EFork 0%Z]) cmd argv in
      @execute_command os args' (World m' st t)
      = Ok (if loaded then Exec else Exit EXIT_FAILURE,
            World m' st
              (t ++ EFork 0%Z :: EExecvp cmd argv loaded ::
                 if loaded then [] else [EPerror "execvp error"])).
Proof.
  intros Hn Hargs Hws Hexit Hhelp Hchild.
  destruct (parse_command_line_vector line rest args save Hn Hargs)
    as (args' & m' & Hrun & [Hnull Htok] & Hargv & _).
  rewrite Hws in *.
  destruct (Htok 0 cmd eq_refl) as (q & Hq & Hp).
  eexists _, args', m'. split; [done|].
  by apply (execute_external_child args' (World m' st t) q cmd).
Qed.

Lemma child_execs_the_words_witness :
  ∃ n args' m',
    parse_command_line 0 (replicate MAX_ARGS None)
      (Mem (chars "cat a b" ++ NUL :: []) None) = Ok (n, args', m')
    ∧ let argv := take (MAX_ARGS - 1) [chars "cat"; chars "a"; chars "b"] in
      let loaded := @os_execvp child_os ([] ++ [EFork 0%Z]) (chars "cat") argv in
      @execute_command child_os args' (World m' (input_of "" EndOfFile) [])
      = Ok (if loaded then Exec else Exit EXIT_FAILURE,
            World m' (input_of "" EndOfFile)
              ([] ++ EFork 0%Z :: EExecvp (chars "cat") argv loaded ::
                 if loaded then [] else [EPerror "execvp error"])).
Proof.
  apply (child_execs_the_words child_os (chars "cat a b") [] (replicate MAX_ARGS None)
           None (input_of "" EndOfFile) [] (chars "cat") [chars "a"; chars "b"]).
  - apply (bool_decide_unpack _). vm_compute. exact I.
  - reflexivity.
  - reflexivity.
  - discriminate.
  - discriminate.
  - reflexivity.
Defined.

(** ** main: one line at a time *)

(** X12: a line whose first word is "exit" ends the shell on the spot:
    after the prompt and the farewell the process exits with code 0;
    what the input holds behind that line is not read, and no further
    prompt is printed. *)
Theorem exit_line_ends_the_shell (os : OS) (fuel : nat)
    (args : list (option nat)) (w : world) (line more : list ascii)
    (ws : list (list ascii)) :
  in_pending (w_in w) = line ++ NEWLINE :: more →
  NEWLINE ∉ line → NUL ∉ line →
  length line + 2 ≤ MAX_LINE_LENGTH →
  length (m_buf (w_mem w)) = MAX_LINE_LENGTH →
  length args = MAX_ARGS →
  words line = chars "exit" :: ws →
  ∃ w',
    @main_loop os (S fuel) args w = Ok (Exit 0%Z, w')
    ∧ in_pending (w_in w') = more
    ∧ w_trace w'
      = w_trace w ++ [EPrintf "simple_shell> "; EFflush;
                      EPrintf ("Exiting simple_shell." +:+ nl)].
Proof.
  intros Hp Hnl Hnul Hfit Hbuf Hargs Hws.
  destruct (main_loop_line fuel args w line more)
    as (args' & w2 & -> & [_ Htok] & _ & _ & Hmore & _ & Ht); try done.
  rewrite Hws in Htok. destruct (Htok 0 (chars "exit") eq_refl) as (q & Hq & Hpt).
  rewrite (execute_exit args' w2 q Hq Hpt), bind_Ok.
  eexists. split; [done|]. cbn [printf emit w_in w_trace].
  split; [by rewrite Hmore|]. rewrite Ht, <- app_assoc. done.
Qed.

Lemma exit_line_ends_the_shell_witness :
  let w := World (Mem (replicate MAX_LINE_LENGTH "x"%char) None)
                 (input_of (" exit now" +:+ nl +:+ "ls" +:+ nl) EndOfFile) [] in
  ∃ w',
    @main_loop calm_os (S 0) (replicate MAX_ARGS None) w = Ok (Exit 0%Z, w')
    ∧ in_pending (w_in w') = chars ("ls" +:+ nl)
    ∧ w_trace w'
      = w_trace w ++ [EPrintf "simple_shell> "; EFflush;
                      EPrintf ("Exiting simple_shell." +:+ nl)].
Proof.
  apply (exit_line_ends_the_shell calm_os 0 (replicate MAX_ARGS None)
           (World (Mem (replicate MAX_LINE_LENGTH "x"%char) None)
                  (input_of (" exit now" +:+ nl +:+ "ls" +:+ nl) EndOfFile) [])
           (chars " exit now") (chars ("ls" +:+ nl)) [chars "now"]).
  - reflexivity.
  - apply (bool_decide_unpack _). vm_compute. exact I.
  - apply (bool_decide_unpack _). vm_compute. exact I.
  - vm_compute. lia.
  - reflexivity.
  - reflexivity.
  - reflexivity.
Defined.

(** X13: a blank line costs one prompt and nothing else: the loop goes
    on to the next line of the input with no event but the prompt and
    its flush, whatever the operating system would answer. *)
Theorem blank_line_only_prompts (os : OS) (fuel : nat)
    (args : list (option nat)) (w : world) (line more : list ascii) :
  in_pending (w_in w) = line ++ NEWLINE :: more →
  Forall (eq SPACE) line →
  length line + 2 ≤ MAX_LINE_LENGTH →
  length (m_buf (w_mem w)) = MAX_LINE_LENGTH →
  length args = MAX_ARGS →
  ∃ args' w',
    @main_loop os (S fuel) args w = @main_loop os fuel args' w'
    ∧ length args' = MAX_ARGS
    ∧ length (m_buf (w_mem w')) = MAX_LINE_LENGTH
    ∧ in_pending (w_in w') = more
    ∧ w_trace w' = w_trace w ++ [EPrintf "simple_shell> "; EFflush].
Proof.
  intros Hp Hsp Hfit Hbuf Hargs.
  assert (∀ c, c ≠ SPACE → c ∉ line) as Hnot.
  { intros c Hc Hin. rewrite Forall_forall in Hsp. by apply Hsp in Hin. }
  destruct (main_loop_line fuel args w line more)
    as (args' & w2 & -> & [Hnull _] & ? & ? & Hmore & _ & ?); try done;
    [by apply Hnot|by apply Hnot|].
  rewrite words_only_spaces in Hnull by done.
  rewrite (execute_empty args' w2 Hnull), bind_Ok.
  exists args', w2. split_and!; try done. by rewrite Hmore.
Qed.

Lemma blank_line_only_prompts_witness :
  let w := World (Mem (replicate MAX_LINE_LENGTH "x"%char) None)
                 (input_of ("  " +:+ nl +:+ "ls" +:+ nl) EndOfFile) [] in
  ∃ args' w',
    @main_loop calm_os (S 3) (replicate MAX_ARGS None) w
    = @main_loop calm_os 3 args' w'
    ∧ length args' = MAX_ARGS
    ∧ length (m_buf (w_mem w')) = MAX_LINE_LENGTH
    ∧ in_pending (w_in w') = chars ("ls" +:+ nl)
    ∧ w_trace w' = w_trace w ++ [EPrintf "simple_shell> "; EFflush].
Proof.
  apply (blank_line_only_prompts calm_os 3 (replicate MAX_ARGS None)
           (World (Mem (replicate MAX_LINE_LENGTH "x"%char) None)
                  (input_of ("  " +:+ nl +:+ "ls" +:+ nl) EndOfFile) [])
           (chars "  ") (chars ("ls" +:+ nl))).
  - reflexivity.
  - apply (bool_decide_unpack _). vm_compute. exact I.
  - vm_compute. lia.
  - reflexivity.
  - reflexivity.
Defined.

(** X16: a line whose first word is "help" prints the prompt and the
    ten lines of the help text, creates no process, and the loop goes on
    with the next line of the input. *)
Theorem help_line_prints_and_goes_on (os : OS) (fuel : nat)
    (args : list (option nat)) (w : world) (line more : list ascii)
    (ws : list (list ascii)) :
  in_pending (w_in w) = line ++ NEWLINE :: more →
  NEWLINE ∉ line → NUL ∉ line →
  length line + 2 ≤ MAX_LINE_LENGTH →
  length (m_buf (w_mem w)) = MAX_LINE_LENGTH →
  length args = MAX_ARGS →
  words line = chars "help" :: ws →
  ∃ args' w',
    @main_loop os (S fuel) args w = @main_loop os fuel args' w'
    ∧ length args' = MAX_ARGS
    ∧ length (m_buf (w_mem w')) = MAX_LINE_LENGTH
    ∧ in_pending (w_in w') = more
    ∧ w_trace w'
      = w_trace w ++ EPrintf "simple_shell> " :: EFflush :: (EPrintf <$> help_text).
Proof.
  intros Hp Hnl Hnul Hfit Hbuf Hargs Hws.
  destruct (main_loop_line fuel args w line more)
    as (args' & w2 & -> & [_ Htok] & ? & ? & Hmore & _ & Ht); try done.
  rewrite Hws in Htok. destruct (Htok 0 (chars "help") eq_refl) as (q & Hq & Hpt).
  rewrite (execute_help args' w2 q Hq Hpt), display_help_trace, bind_Ok.
  eexists args', _. split; [done|].
  cbn [w_mem w_in w_trace]. split_and!; try done; [by rewrite Hmore|].
  by rewrite Ht, <- app_assoc.
Qed.

Lemma help_line_prints_and_goes_on_witness :
  let w := World (Mem (replicate MAX_LINE_LENGTH "x"%char) None)
                 (input_of ("help me" +:+ nl) EndOfFile) [] in
  ∃ args' w',
    @main_loop calm_os (S 2) (replicate MAX_ARGS None) w
    = @main_loop calm_os 2 args' w'
    ∧ length args' = MAX_ARGS
    ∧ length (m_buf (w_mem w')) = MAX_LINE_LENGTH
    ∧ in_pending (w_in w') = []
    ∧ w_trace w'
      = w_trace w ++ EPrintf "simple_shell> " :: EFflush :: (EPrintf <$> help_text).
Proof.
  apply (help_line_prints_and_goes_on calm_os 2 (replicate MAX_ARGS None)
           (World (Mem (replicate MAX_LINE_LENGTH "x"%char) None)
                  (input_of ("help me" +:+ nl) EndOfFile) [])
           (chars "help me") [] [chars "me"]).
  - reflexivity.
  - apply (bool_decide_unpack _). vm_compute. exact I.
  - apply (bool_decide_unpack _). vm_compute. exact I.
  - vm_compute. lia.
  - reflexivity.
  - reflexivity.
  - reflexivity.
Defined.
(** ** main: how a run ends *)

(** X14: how a run of the whole program stops, for every behaviour of
    the operating system.  A run of [main] never leaves the defined
    behaviour of the C program, and when it stops it has stopped in one
    of these ways.  In the shell itself: [main] returns 0 behind the
    message of the stream's end, or the [exit] built-in ends the process
    with code 0, or the shell stays in a [waitpid] that does not return.
    In the child of a [fork]: the child's one call after the [fork] is
    [execvp], and it either replaces the program or is followed by
    "execvp error" and [exit(EXIT_FAILURE)]; the child prints no prompt
    and reads no input.  No other exit code occurs.  And when no child
    makes the input of the shell longer, the run does stop: as many
    turns as the input has bytes, and one more, are enough. *)
Theorem main_ends_well (os : OS) (fuel : nat)
    (line_buffer : list ascii) (args : list (option nat)) (input : stdin_state) :
  length line_buffer = MAX_LINE_LENGTH →
  length args = MAX_ARGS →
  (@main os fuel line_buffer args input = OutOfFuel ∨
   ∃ o w,
     @main os fuel line_buffer args input = Ok (o, w) ∧ ends_well o (w_trace w))
  ∧ ((∀ t st, length (in_pending (os_input_after t st)) ≤ length (in_pending st)) →
     length (in_pending input) < fuel →
     ∃ o w,
       @main os fuel line_buffer args input = Ok (o, w) ∧ ends_well o (w_trace w)).
Proof.
  intros Hbuf Hargs. unfold main.
  set (w0 := World (Mem line_buffer None) input []).
  assert (main_loop fuel args w0 = OutOfFuel ∨
          ∃ o w, main_loop fuel args w0 = Ok (o, w) ∧ ends_well o (w_trace w)) as H.
  { destruct (main_loop_stops fuel args w0 Hbuf Hargs)
      as [HO|(o & w & evs & Hrun & Ht & Ho)]; [by left|right].
    exists o, w. split; [done|]. cbn [w0 w_trace app] in Ht. rewrite Ht.
    destruct o as [c|c| |]; cbn [ends_well]; try done.
    - destruct Ho as [?|(-> & t0 & cmd & argv & -> & Hno & _)]; [by left|right].
      split; [done|]. by exists t0, cmd, argv.
    - destruct Ho as (t0 & cmd & argv & -> & Hno & _). by exists t0, cmd, argv. }
  split; [done|]. intros Hos Hfuel.
  destruct H as [HO|H]; [|done].
  by apply main_loop_enough_fuel in HO.
Qed.

Lemma main_ends_well_witness :
  ∃ o w,
    @main child_os 12 (replicate MAX_LINE_LENGTH "x"%char) (replicate MAX_ARGS None)
      (input_of ("nosuch a" +:+ nl) EndOfFile) = Ok (o, w)
    ∧ ends_well o (w_trace w).
Proof.
  apply (proj2 (main_ends_well child_os 12 (replicate MAX_LINE_LENGTH "x"%char)
                  (replicate MAX_ARGS None) (input_of ("nosuch a" +:+ nl) EndOfFile)
                  eq_refl eq_refl)).
  - intros t st. simpl. lia.
  - vm_compute. lia.
Defined.

